(** * tg-analyzer: the message model and the normalisation of message text

    A shallow embedding of [main.py]: the classes [JsonObject], [ChatExport],
    [Message], [Message.Text], [RegularMessage], [ServiceMessage] and
    [MsgFactory].

    The program works on the objects [json.load] returns and rewrites them in
    place: [ChatExport.__post_init__] overwrites the slots of the document's
    [messages] list, [Message.__post_init__] overwrites the [text] entry of the
    record it wraps, and a wrapper keeps the very dict it was given in
    [_inner].  The embedding therefore has a store of objects addressed by
    references; a constructor is a state transformer over that store and a
    raised exception leaves the store as it was when it was raised. *)

From Stdlib Require Import Ascii String SpecFloat.
From stdpp Require Import gmap list pretty.

(** ** Python values and builtins *)

(** A [str] is a sequence of Unicode code points. *)
Abbreviation pystr := (list N) (only parsing).

(** The [str] made of the characters of an ASCII literal. *)
Definition str (s : string) : pystr := N_of_ascii <$> list_ascii_of_string s.

Abbreviation loc := positive (only parsing).

(** What a variable or a container slot holds.  [None], [bool], [int],
    [float] and [str] are immutable and held by value; lists, dicts and
    class instances are held by reference. *)
Inductive val :=
| VNone
| VBool (b : bool)
| VInt (z : Z)
| VFloat (f : spec_float)
| VStr (s : pystr)
| VRef (l : loc).

(** A [dict] with [str] keys, in insertion order (what [json.load] builds
    from a JSON object).  Keys are distinct; [dict_set] keeps them so. *)
Abbreviation dict := (list (pystr * val)) (only parsing).

Fixpoint dict_get `{EqDecision K} {V} (k : K) (d : list (K * V)) : option V :=
  match d with
  | [] => None
  | (k', v) :: d' => if decide (k' = k) then Some v else dict_get k d'
  end.

(** [d[k] = v]: an existing key keeps its place, a new one goes last. *)
Fixpoint dict_set `{EqDecision K} {V} (k : K) (v : V) (d : list (K * V)) :
    list (K * V) :=
  match d with
  | [] => [(k, v)]
  | (k', v') :: d' =>
      if decide (k' = k) then (k', v) :: d' else (k', v') :: dict_set k v d'
  end.

(** The classes [MsgFactory.MAPPING] can instantiate. *)
Inductive msg_cls := RegularMessage | ServiceMessage.

(** Objects of the store.  [OText] is an instance of [Message.Text] with its
    field [contents]; [OMessage] and [OChatExport] are instances of the
    subclasses of [JsonObject] with the field [_inner]. *)
Inductive obj :=
| ODict (d : dict)
| OList (xs : list val)
| OText (contents : val)
| OMessage (cls : msg_cls) (_inner : val)
| OChatExport (_inner : val).

Abbreviation heap := (gmap loc obj) (only parsing).

(** The exceptions the modelled code can raise. *)
Inductive exn :=
| KeyError (key : pystr)
| TypeError
| AttributeError
| IndexError
| ValueError (msg : pystr).

(** How an evaluation ends.  [Unmodelled] marks the few runs this embedding
    does not follow: a reference without an object (no Python state has
    one), the [repr] of a float, of a container or of a class instance
    inside an f-string, an [int] key stored in a dict, and [Text.count]
    re-entered through an entity whose [text] is itself a [Text]
    instance. *)
Inductive outcome (A : Type) :=
| Ok (a : A)
| Raise (e : exn)
| Unmodelled.
Arguments Ok {A} a.
Arguments Raise {A} e.
Arguments Unmodelled {A}.

Global Instance outcome_ret : MRet outcome := @Ok.
Global Instance outcome_bind : MBind outcome := λ A B f m,
  match m with Ok a => f a | Raise e => Raise e | Unmodelled => Unmodelled end.
Global Instance outcome_fmap : FMap outcome := λ A B f m,
  match m with Ok a => Ok (f a) | Raise e => Raise e | Unmodelled => Unmodelled end.

(** Code that reads and writes the store.  The store is returned in every
    case: what was written before an exception stays written. *)
Definition M (A : Type) : Type := heap → outcome A * heap.

Global Instance M_ret : MRet M := λ A a h, (Ok a, h).
Global Instance M_bind : MBind M := λ A B f m h,
  match m h with
  | (Ok a, h') => f a h'
  | (Raise e, h') => (Raise e, h')
  | (Unmodelled, h') => (Unmodelled, h')
  end.

(** Code that only reads the store. *)
Definition lift {A} (f : heap → outcome A) : M A := λ h, (f h, h).

Definition raise {A} (e : exn) : M A := λ h, (Raise e, h).

(** A new object gets a reference no object has yet. *)
Definition alloc (o : obj) : M loc := λ h,
  let l := fresh (dom h) in (Ok l, <[l := o]> h).

(** [v[key]] for a [str] key. *)
Definition subscript (h : heap) (v : val) (key : pystr) : outcome val :=
  match v with
  | VRef l =>
      match h !! l with
      | Some (ODict d) =>
          match dict_get key d with
          | Some x => Ok x
          | None => Raise (KeyError key)
          end
      | Some _ => Raise TypeError
      | None => Unmodelled
      end
  | _ => Raise TypeError
  end.

(** [v[key] = x] for a [str] key. *)
Definition store_subscript (v : val) (key : pystr) (x : val) : M unit := λ h,
  match v with
  | VRef l =>
      match h !! l with
      | Some (ODict d) => (Ok (), <[l := ODict (dict_set key x d)]> h)
      | Some _ => (Raise TypeError, h)
      | None => (Unmodelled, h)
      end
  | _ => (Raise TypeError, h)
  end.

(** [v[idx] = x] for an index [idx >= 0]. *)
Definition store_index (v : val) (idx : nat) (x : val) : M unit := λ h,
  match v with
  | VRef l =>
      match h !! l with
      | Some (OList xs) =>
          if decide (idx < length xs) then (Ok (), <[l := OList (<[idx := x]> xs)]> h)
          else (Raise IndexError, h)
      | Some (ODict _) => (Unmodelled, h)
      | Some _ => (Raise TypeError, h)
      | None => (Unmodelled, h)
      end
  | _ => (Raise TypeError, h)
  end.

(** The elements a [for] loop over [v] visits: the slots of a list, the keys
    of a dict, the characters of a str. *)
Definition iter (h : heap) (v : val) : outcome (list val) :=
  match v with
  | VStr s => Ok ((λ c, VStr [c]) <$> s)
  | VRef l =>
      match h !! l with
      | Some (OList xs) => Ok xs
      | Some (ODict d) => Ok (VStr <$> d.*1)
      | Some _ => Raise TypeError
      | None => Unmodelled
      end
  | _ => Raise TypeError
  end.

(** [f"{v}"]. *)
Definition format (v : val) : outcome pystr :=
  match v with
  | VStr s => Ok s
  | VNone => Ok (str "None")
  | VBool b => Ok (str (if b then "True" else "False"))
  | VInt z => Ok (str (pretty z))
  | VFloat _ => Unmodelled
  | VRef _ => Unmodelled
  end.

(** [hash(v)] succeeds.  Lists and dicts have no hash, and neither have the
    instances of the program's dataclasses (they define [__eq__] and are not
    frozen). *)
Definition hashable (v : val) : bool :=
  match v with VRef _ => false | _ => true end.

(** ["".join(res)]. *)
Fixpoint join (res : list val) : outcome pystr :=
  match res with
  | [] => Ok []
  | VStr s :: res' => (s ++.) <$> join res'
  | _ :: _ => Raise TypeError
  end.

Fixpoint starts_with (sub s : pystr) : bool :=
  match sub, s with
  | [], _ => true
  | a :: sub', b :: s' => bool_decide (a = b) && starts_with sub' s'
  | _ :: _, [] => false
  end.

(** The scan of [str.count] for a non-empty [sub]: [skip] characters of the
    last match are still to be passed over. *)
Fixpoint count_scan (sub : pystr) (skip : nat) (s : pystr) : nat :=
  match s with
  | [] => 0
  | _ :: s' =>
      match skip with
      | S k => count_scan sub k s'
      | O =>
          if starts_with sub s then S (count_scan sub (length sub - 1) s')
          else count_scan sub 0 s'
      end
  end.

(** [s.count(sub)] on strs: an empty [sub] is found between any two
    characters and at both ends. *)
Definition str_count (s sub : pystr) : nat :=
  match sub with
  | [] => S (length s)
  | _ :: _ => count_scan sub 0 s
  end.

(** [xs.count(x)] on a list, for a str [x]: the elements equal to it. *)
Definition list_count (xs : list val) (x : pystr) : nat :=
  length (List.filter
            (λ v, match v with VStr s => bool_decide (s = x) | _ => false end) xs).

(** ** The classes of main.py *)

(** The properties the classes declare. *)
Inductive property :=
| p_name | p_id | p_messages
| p_type | p_date_unixtime | p_date | p_text
| p_from_usr
| p_action.

Global Instance property_eq_dec : EqDecision property.
Proof. solve_decision. Defined.

Module JsonObject.

(** [self._inner]: set by [__post_init__] on every instance of a subclass
    of [JsonObject]; no other object has the field. *)
Definition _inner (h : heap) (self : val) : outcome val :=
  match self with
  | VRef l =>
      match h !! l with
      | Some (OMessage _ i) | Some (OChatExport i) => Ok i
      | Some _ => Raise AttributeError
      | None => Unmodelled
      end
  | _ => Raise AttributeError
  end.

Definition get (h : heap) (self : val) (key : pystr) : outcome val :=
  i ← _inner h self; subscript h i key.

Definition set (self : val) (key : pystr) (v : val) : M unit :=
  i ← lift (λ h, _inner h self); store_subscript i key v.

End JsonObject.

(** Each class body as the table of its properties: the property and the key
    its getter passes to [get]. *)
Definition ChatExport_properties : list (property * pystr) :=
  [(p_name, str "name"); (p_id, str "id"); (p_messages, str "messages")].

Definition Message_properties : list (property * pystr) :=
  [(p_id, str "id"); (p_type, str "type");
   (p_date_unixtime, str "date_unixtime"); (p_date, str "date");
   (p_text, str "text")].

Definition RegularMessage_properties : list (property * pystr) :=
  [(p_from_usr, str "from")].

Definition ServiceMessage_properties : list (property * pystr) :=
  [(p_action, str "action")].

(** The properties an object has: those of its class, then those of the
    class it derives from.  Dicts, lists and [Text] instances have none. *)
Definition properties_of (o : obj) : list (property * pystr) :=
  match o with
  | OChatExport _ => ChatExport_properties
  | OMessage RegularMessage _ => RegularMessage_properties ++ Message_properties
  | OMessage ServiceMessage _ => ServiceMessage_properties ++ Message_properties
  | _ => []
  end.

(** [self.p] for a property [p]: the class decides whether [self] has it. *)
Definition getattr (h : heap) (self : val) (p : property) : outcome val :=
  match self with
  | VRef l =>
      match h !! l with
      | Some o =>
          match dict_get p (properties_of o) with
          | Some key => JsonObject.get h self key
          | None => Raise AttributeError
          end
      | None => Unmodelled
      end
  | _ => Raise AttributeError
  end.

Module Text.

(** [Text(raw_contents=...)]: a new instance, on which [__post_init__]
    sets [contents] to a new one-element list for a str and to the raw
    value itself otherwise.  The instance enters the store with the field
    set, hence after the list; nothing reads it in between. *)
Definition new (raw_contents : val) : M val :=
  contents ← match raw_contents with
             | VStr _ => l ← alloc (OList [raw_contents]); mret (VRef l)
             | _ => mret raw_contents
             end;
  self ← alloc (OText contents);
  mret (VRef self).

(** [self.contents] *)
Definition contents (h : heap) (self : val) : outcome val :=
  match self with
  | VRef l =>
      match h !! l with
      | Some (OText c) => Ok c
      | Some _ => Raise AttributeError
      | None => Unmodelled
      end
  | _ => Raise AttributeError
  end.

(** What one turn of the loop of [__repr__] appends to [res]. *)
Definition repr_el (h : heap) (el : val) : outcome val :=
  match el with
  | VStr _ => Ok el
  | _ =>
      match subscript h el (str "text") with
      | Ok v => Ok v
      | Raise (KeyError _) =>
          ty ← subscript h el (str "type");
          t ← format ty;
          Ok (VStr (str "<" ++ t ++ str ">"))
      | Raise e => Raise e
      | Unmodelled => Unmodelled
      end
  end.

Fixpoint repr_loop (h : heap) (els res : list val) : outcome (list val) :=
  match els with
  | [] => Ok res
  | el :: els' => v ← repr_el h el; repr_loop h els' (res ++ [v])
  end.

(** [Message.Text.__repr__] *)
Definition repr (h : heap) (self : val) : outcome pystr :=
  c ← contents h self;
  els ← iter h c;
  res ← repr_loop h els [];
  join res.

Section count.

(** [str.lower], by the Unicode case mapping of the interpreter. *)
Variable lower : pystr → pystr.

(** [s.lower()]: only a str has the method. *)
Definition lower_of (h : heap) (s : val) : outcome pystr :=
  match s with
  | VStr t => Ok (lower t)
  | VRef l =>
      match h !! l with
      | Some _ => Raise AttributeError
      | None => Unmodelled
      end
  | _ => Raise AttributeError
  end.

(** [s.count(word)]: a method of strs and of lists. *)
Definition count_of (h : heap) (s : val) (word : pystr) : outcome nat :=
  match s with
  | VStr t => Ok (str_count t word)
  | VRef l =>
      match h !! l with
      | Some (OList xs) => Ok (list_count xs word)
      | Some (OText _) => Unmodelled
      | Some _ => Raise AttributeError
      | None => Unmodelled
      end
  | _ => Raise AttributeError
  end.

(** The text searched for a segment: [None] when the loop goes on to
    the next segment. *)
Definition searched (h : heap) (s : val) : outcome (option val) :=
  match s with
  | VStr _ => Ok (Some s)
  | _ =>
      match subscript h s (str "text") with
      | Ok v => Ok (Some v)
      | Raise (KeyError _) => Ok None
      | Raise e => Raise e
      | Unmodelled => Unmodelled
      end
  end.

(** The loop of [count]; [word] is assigned to in the loop and so is
    part of its state. *)
Fixpoint count_loop (h : heap) (els : list val) (word : pystr)
    (case_sensitive : bool) (counts : list nat) : outcome (list nat) :=
  match els with
  | [] => Ok counts
  | s :: els' =>
      t ← searched h s;
      match t with
      | None => count_loop h els' word case_sensitive counts
      | Some s =>
          if case_sensitive then
            c ← count_of h s word;
            count_loop h els' word case_sensitive (counts ++ [c])
          else
            s' ← lower_of h s;
            let word' := lower word in
            c ← count_of h (VStr s') word';
            count_loop h els' word' case_sensitive (counts ++ [c])
      end
  end.

(** [Message.Text.count] *)
Definition count (h : heap) (self : val) (word : pystr)
    (case_sensitive : bool) : outcome nat :=
  c ← contents h self;
  els ← iter h c;
  counts ← count_loop h els word case_sensitive [];
  Ok (sum_list counts).

End count.

End Text.

Module Message.

(** [Message.__post_init__], after [_inner] is set. *)
Definition post_init (self : val) : M unit :=
  raw ← lift (λ h, getattr h self p_text);
  text ← Text.new raw;
  JsonObject.set self (str "text") text.

(** [cls(json_val=json_obj)] for a subclass [cls] of [Message]: the new
    instance, with [_inner] set by [JsonObject.__post_init__], then the
    rest of [Message.__post_init__]. *)
Definition new (cls : msg_cls) (json_val : val) : M val :=
  self ← alloc (OMessage cls json_val);
  post_init (VRef self);;
  mret (VRef self).

Definition id (h : heap) (self : val) := getattr h self p_id.
Definition type (h : heap) (self : val) := getattr h self p_type.
Definition date_unixtime (h : heap) (self : val) := getattr h self p_date_unixtime.
Definition date (h : heap) (self : val) := getattr h self p_date.
Definition text (h : heap) (self : val) := getattr h self p_text.

End Message.

(** [RegularMessage.from_usr] *)
Definition from_usr (h : heap) (self : val) := getattr h self p_from_usr.

(** [ServiceMessage.action] *)
Definition action (h : heap) (self : val) := getattr h self p_action.

Module MsgFactory.

Definition MAPPING : list (pystr * msg_cls) :=
  [(str "service", ServiceMessage); (str "message", RegularMessage)].

(** [msg_type in cls.MAPPING], with [cls.MAPPING[msg_type]] when it is.
    The test hashes [msg_type] first. *)
Definition find (msg_type : val) : outcome (option msg_cls) :=
  if hashable msg_type then
    Ok (match msg_type with VStr s => dict_get s MAPPING | _ => None end)
  else Raise TypeError.

Definition get_message (json_obj : val) : M val :=
  msg_type ← lift (λ h, subscript h json_obj (str "type"));
  found ← lift (λ _, find msg_type);
  match found with
  | Some cls => Message.new cls json_obj
  | None =>
      t ← lift (λ _, format msg_type);
      raise (ValueError (str "Unhandled message type: " ++ t))
  end.

End MsgFactory.

Module ChatExport.

Definition name (h : heap) (self : val) := getattr h self p_name.
Definition id (h : heap) (self : val) := getattr h self p_id.
Definition messages (h : heap) (self : val) := getattr h self p_messages.

(** The loop of [__post_init__] from index [idx] on, over the elements
    [enumerate] has still to yield.  A list iterator reads slot [idx] at
    turn [idx]; the loop writes a slot only after it was read and changes
    no length, so the elements are those found when the loop starts. *)
Fixpoint convert (self : val) (idx : nat) (els : list val) : M unit :=
  match els with
  | [] => mret ()
  | msg :: els' =>
      new_msg ← MsgFactory.get_message msg;
      ms ← lift (λ h, messages h self);
      store_index ms idx new_msg;;
      convert self (S idx) els'
  end.

(** [ChatExport.__post_init__], after [_inner] is set. *)
Definition post_init (self : val) : M unit :=
  ms ← lift (λ h, messages h self);
  els ← lift (λ h, iter h ms);
  convert self 0 els.

(** [ChatExport(json_val=...)]: the new instance, with [_inner] set by
    [JsonObject.__post_init__], then the loop.  When the loop raises, the
    caller gets the exception and no instance. *)
Definition new (json_val : val) : M val :=
  self ← alloc (OChatExport json_val);
  post_init (VRef self);;
  mret (VRef self).

Definition hook (json_obj : val) : M val := new json_obj.

End ChatExport.

(** ** [str.lower] on the examples

    [str.lower] maps each code point by the Unicode lowercase mapping.  This
    is that mapping on the code points up to U+00FF, where the capitals of
    ASCII and of Latin-1 go to the letter 32 places further, and on U+0130
    (capital I with dot above), the code point whose mapping has two code
    points, U+0069 U+0307.  The examples below take their strings from these
    code points only; the cased letters beyond U+00FF are not in the table. *)
Definition lower_cp (c : N) : pystr :=
  if (65 <=? c)%N && (c <=? 90)%N then [(c + 32)%N]
  else if (192 <=? c)%N && (c <=? 222)%N && negb (c =? 215)%N then [(c + 32)%N]
  else if (c =? 304)%N then [105%N; 775%N]
  else [c].

Definition lower_latin (s : pystr) : pystr := flat_map lower_cp s.

(** ** The data model of the specification *)

(** A segment of a TextContent: a plain string, or a typed entity with its
    type tag and, when it has one, its [text] sub-field. *)
Inductive segment :=
| Plain (s : pystr)
| Entity (type : pystr) (text : option pystr).

(** The segment an element of [contents] stands for: a str, or a dict whose
    [type] is a str and whose [text], if any, is a str. *)
Definition segment_of (h : heap) (v : val) : option segment :=
  match v with
  | VStr s => Some (Plain s)
  | VRef l =>
      match h !! l with
      | Some (ODict d) =>
          match dict_get (str "type") d, dict_get (str "text") d with
          | Some (VStr ty), None => Some (Entity ty None)
          | Some (VStr ty), Some (VStr t) => Some (Entity ty (Some t))
          | _, _ => None
          end
      | _ => None
      end
  | _ => None
  end.

(** The segment sequence of a [Text] instance whose [contents] is a list of
    such elements. *)
Definition segments (h : heap) (self : val) : option (list segment) :=
  match self with
  | VRef t =>
      match h !! t with
      | Some (OText (VRef l)) =>
          match h !! l with
          | Some (OList xs) => mapM (segment_of h) xs
          | _ => None
          end
      | _ => None
      end
  | _ => None
  end.

(** The text of a segment that has one. *)
Definition segment_text (g : segment) : option pystr :=
  match g with
  | Plain s => Some s
  | Entity _ t => t
  end.

(** Rendering rule: a plain string as itself, an entity as its text or else
    as its type tag between angle brackets. *)
Definition spec_render_segment (g : segment) : pystr :=
  match g with
  | Plain s => s
  | Entity _ (Some t) => t
  | Entity ty None => str "<" ++ ty ++ str ">"
  end.

Definition spec_render (gs : list segment) : pystr :=
  concat (spec_render_segment <$> gs).

(** Non-overlapping occurrences of a non-empty [word], scanning left to
    right: a match is counted and its span consumed, otherwise the scan
    moves on by one character.  [n] bounds the number of steps. *)
Fixpoint spec_occurrences_within (n : nat) (word s : pystr) : nat :=
  match n with
  | O => 0
  | S n' =>
      match s with
      | [] => 0
      | _ :: s' =>
          if starts_with word s
          then S (spec_occurrences_within n' word (drop (length word) s))
          else spec_occurrences_within n' word s'
      end
  end.

Definition spec_occurrences (word s : pystr) : nat :=
  spec_occurrences_within (length s) word s.

Section spec_count.

Variable lower : pystr → pystr.

(** Counting rule: a segment without text contributes nothing; the others
    contribute the occurrences of the word in their text, both lower-cased
    unless the search is case sensitive. *)
Definition spec_count_segment (word : pystr) (case_sensitive : bool)
    (g : segment) : nat :=
  match segment_text g with
  | None => 0
  | Some t =>
      if case_sensitive then spec_occurrences word t
      else spec_occurrences (lower word) (lower t)
  end.

Definition spec_count (gs : list segment) (word : pystr)
    (case_sensitive : bool) : nat :=
  sum_list (spec_count_segment word case_sensitive <$> gs).

(** The empty word: a segment with text contributes one more than the
    length of the text as it is searched. *)
Definition spec_count_empty_segment (case_sensitive : bool) (g : segment) : nat :=
  match segment_text g with
  | None => 0
  | Some t => S (length (if case_sensitive then t else lower t))
  end.

Definition spec_count_empty (gs : list segment) (case_sensitive : bool) : nat :=
  sum_list (spec_count_empty_segment case_sensitive <$> gs).

End spec_count.

(** ** Records and what a construction keeps *)

(** The class of a record the factory can convert: a dict whose [type] is
    a key of [MAPPING] and which has a [text]. *)
Definition record_class (h : heap) (rec : val) : option msg_cls :=
  match rec with
  | VRef r =>
      match h !! r with
      | Some (ODict d) =>
          match dict_get (str "type") d, dict_get (str "text") d with
          | Some (VStr ty), Some _ => dict_get ty MsgFactory.MAPPING
          | _, _ => None
          end
      | _ => None
      end
  | _ => None
  end.

(** The type of a record as the error message shows it, for a record dict
    whose [type] can be hashed and is no key of [MAPPING]. *)
Definition record_unhandled (h : heap) (rec : val) : option pystr :=
  match rec with
  | VRef r =>
      match h !! r with
      | Some (ODict d) =>
          match dict_get (str "type") d with
          | Some msg_type =>
              match MsgFactory.find msg_type, format msg_type with
              | Ok None, Ok t => Some t
              | _, _ => None
              end
          | None => None
          end
      | _ => None
      end
  | _ => None
  end.

(** The type string of a record: the str a record dict holds under
    [type]. *)
Definition record_type (h : heap) (rec : val) : option pystr :=
  match rec with
  | VRef r =>
      match h !! r with
      | Some (ODict d) =>
          match dict_get (str "type") d with
          | Some (VStr ty) => Some ty
          | _ => None
          end
      | _ => None
      end
  | _ => None
  end.

(** The mapping of the specification, written out: ["message"] is the
    Regular variant, ["service"] the Service variant, and no other type
    string has one. *)
Definition spec_variant (ty : pystr) : option msg_cls :=
  if decide (ty = str "message") then Some RegularMessage
  else if decide (ty = str "service") then Some ServiceMessage
  else None.

(** The variant of a well-formed record: a dict that has a [text] and whose
    type string is one of the two. *)
Definition record_variant (h : heap) (rec : val) : option msg_cls :=
  match rec with
  | VRef r =>
      match h !! r with
      | Some (ODict d) =>
          match dict_get (str "type") d, dict_get (str "text") d with
          | Some (VStr ty), Some _ => spec_variant ty
          | _, _ => None
          end
      | _ => None
      end
  | _ => None
  end.

(** [text] is the TextContent of the raw value [raw]: its [contents] is a
    list holding just the str when [raw] is a str, and [raw] itself
    otherwise. *)
Definition text_of_raw (h : heap) (raw text : val) : Prop :=
  ∃ c, Text.contents h text = Ok c ∧
       (∀ s, raw = VStr s → iter h c = Ok [VStr s]) ∧
       ((∀ s, raw ≠ VStr s) → c = raw).

(** What converting records leaves of an object: a dict keeps every entry
    but [text] and keeps having a [text] if it had one, a list stays a list,
    a class instance stays as it is. *)
Definition obj_kept (o o' : obj) : Prop :=
  match o, o' with
  | ODict d, ODict d' =>
      (∀ k, k ≠ str "text" → dict_get k d' = dict_get k d) ∧
      (is_Some (dict_get (str "text") d) → is_Some (dict_get (str "text") d'))
  | OList _, OList _ => True
  | OText _, _ | OMessage _ _, _ | OChatExport _, _ => o' = o
  | _, _ => False
  end.

Definition kept (h h' : heap) : Prop :=
  ∀ l o, h !! l = Some o → ∃ o', h' !! l = Some o' ∧ obj_kept o o'.

(** ** Stores of the examples *)

Open Scope positive_scope.

(** The texts [["a", {"type": "link", "text": "b"}, "c"]] (at 3),
    [["see ", {"type": "link"}, " link"]] (at 6), ["Foo foo FOO"] (at 8) and
    the one character U+0130 (at 10), each in a [Text] instance. *)
Definition text_store : gmap positive obj :=
  list_to_map
    [(1, OList [VStr (str "a"); VRef 2; VStr (str "c")]);
     (2, ODict [(str "type", VStr (str "link")); (str "text", VStr (str "b"))]);
     (3, OText (VRef 1));
     (4, OList [VStr (str "see "); VRef 5; VStr (str " link")]);
     (5, ODict [(str "type", VStr (str "link"))]);
     (6, OText (VRef 4));
     (7, OList [VStr (str "Foo foo FOO")]);
     (8, OText (VRef 7));
     (9, OList [VStr [304%N]]);
     (10, OText (VRef 9))].

(** Three records: a message, a service message, and a message whose text
    has an entity. *)
Definition record_hi : list (list N * val) :=
  [(str "id", VInt 1); (str "type", VStr (str "message"));
   (str "date", VStr (str "2024-01-01T10:00:00"));
   (str "date_unixtime", VStr (str "1704103200"));
   (str "from", VStr (str "A")); (str "text", VStr (str "hi"))].

Definition record_invite : list (list N * val) :=
  [(str "id", VInt 2); (str "type", VStr (str "service"));
   (str "date", VStr (str "2024-01-01T10:01:00"));
   (str "date_unixtime", VStr (str "1704103260"));
   (str "action", VStr (str "invite_members")); (str "text", VStr (str ""))].

Definition record_see : list (list N * val) :=
  [(str "id", VInt 3); (str "type", VStr (str "message"));
   (str "date", VStr (str "2024-01-01T10:02:00"));
   (str "date_unixtime", VStr (str "1704103320"));
   (str "from", VStr (str "B")); (str "text", VRef 6)].

(** A record of the type ["poll"]. *)
Definition record_poll : list (list N * val) :=
  [(str "id", VInt 2); (str "type", VStr (str "poll"));
   (str "text", VStr (str "x"))].

(** The document of the three records. *)
Definition chat_store : gmap positive obj :=
  list_to_map
    [(1, ODict [(str "name", VStr (str "chat")); (str "id", VInt 7);
                (str "messages", VRef 2)]);
     (2, OList [VRef 3; VRef 4; VRef 5]);
     (3, ODict record_hi);
     (4, ODict record_invite);
     (5, ODict record_see);
     (6, OList [VStr (str "see "); VRef 7]);
     (7, ODict [(str "type", VStr (str "link")); (str "text", VStr (str "x.org"))])].

(** The store after that document is loaded: the messages are at 9, 12
    and 15. *)
Definition loaded_store : gmap positive obj :=
  (ChatExport.new (VRef 1) chat_store).2.

(** A document whose second record is the poll. *)
Definition poll_store : gmap positive obj :=
  list_to_map
    [(1, ODict [(str "name", VStr (str "chat")); (str "id", VInt 7);
                (str "messages", VRef 2)]);
     (2, OList [VRef 3; VRef 4; VRef 5]);
     (3, ODict record_hi);
     (4, ODict record_poll);
     (5, ODict record_invite)].

Close Scope positive_scope.


(** ** Records the factory rejects before it builds anything *)

(** The exception of [json_obj["type"]] for a record that is no dict or is
    a dict without [type]. *)
Definition record_untyped (h : heap) (rec : val) : option exn :=
  match subscript h rec (str "type") with
  | Raise e => Some e
  | _ => None
  end.

(** ** What [count] reads of a segment *)

(** The text [count] searches in an element of [contents]: a str, or the
    [text] of a dict when that is a str; [Some None] for a dict without
    [text].  The [type] of the dict is not looked at. *)
Definition searched_text (h : heap) (v : val) : option (option pystr) :=
  match v with
  | VStr s => Some (Some s)
  | VRef l =>
      match h !! l with
      | Some (ODict d) =>
          match dict_get (str "text") d with
          | None => Some None
          | Some (VStr t) => Some (Some t)
          | Some _ => None
          end
      | _ => None
      end
  | _ => None
  end.

(** The elements of the [contents] list of a [Text] instance. *)
Definition contents_list (h : heap) (self : val) : option (list val) :=
  match self with
  | VRef t =>
      match h !! t with
      | Some (OText (VRef l)) =>
          match h !! l with
          | Some (OList xs) => Some xs
          | _ => None
          end
      | _ => None
      end
  | _ => None
  end.

(** ** More stores for examples *)

(** A message record that has no [from], and a service record that has no
    [action]. *)
Definition record_no_sender : list (list N * val) :=
  [(str "id", VInt 4); (str "type", VStr (str "message"));
   (str "text", VStr (str "x"))].

Definition record_no_action : list (list N * val) :=
  [(str "id", VInt 5); (str "type", VStr (str "service"));
   (str "text", VStr (str "y"))].

Definition anonymous_store : gmap positive obj :=
  list_to_map
    [(1%positive, ODict record_no_sender); (2%positive, ODict record_no_action)].

(** A document without [messages], and a document whose [messages] is a
    number. *)
Definition headless_store : gmap positive obj :=
  list_to_map
    [(1%positive, ODict [(str "name", VStr (str "chat")); (str "id", VInt 7)]);
     (2%positive, ODict [(str "name", VStr (str "chat")); (str "messages", VInt 3)])].

(** A document whose records are a message, then a str, then a dict
    without [type]. *)
Definition ragged_store : gmap positive obj :=
  list_to_map
    [(1%positive, ODict [(str "messages", VRef 2%positive)]);
     (2%positive, OList [VRef 3%positive; VStr (str "oops"); VRef 4%positive]);
     (3%positive, ODict record_hi);
     (4%positive, ODict [(str "id", VInt 9); (str "text", VStr (str "z"))]);
     (5%positive, ODict [(str "messages", VRef 6%positive)]);
     (6%positive, OList [VRef 3%positive; VRef 4%positive])].

(** What [count] adds up for the texts [ts] of the segments: nothing for a
    segment without text, else what [str.count] finds, in the lower-cased
    text for the lower-cased word unless the search is case sensitive. *)
Definition counted_texts (lower : pystr → pystr) (ts : list (option pystr))
    (word : pystr) (case_sensitive : bool) : nat :=
  sum_list
    ((λ ot, match ot with
            | None => 0
            | Some t =>
                if case_sensitive then str_count t word
                else str_count (lower t) (lower word)
            end) <$> ts).

(** A text with an entity that has neither [text] nor [type] (at 3), after
    a plain string and before an entity without [type]. *)
Definition untagged_store : gmap positive obj :=
  list_to_map
    [(1%positive, OText (VRef 2%positive));
     (2%positive, OList [VStr (str "to be or"); VRef 3%positive; VRef 4%positive]);
     (3%positive, ODict [(str "href", VStr (str "x.org"))]);
     (4%positive, ODict [(str "text", VStr (str " not to be"))])].

(** ** The commands of [App]

    A command reads [app.chat], the [ChatExport] of the session, and the
    arguments [argparse] has put into [self.args]; both are parameters
    here.  A command prints: its result is the texts given to [print], one
    per call and in order, with how the run ended; what was printed before
    an exception stays printed. *)

Definition printed (A : Type) : Type := list pystr * outcome A.

(** [print(line)], then [k]. *)
Definition print_then {A} (line : pystr) (k : printed A) : printed A :=
  (line :: k.1, k.2).

(** A step that prints nothing. *)
Definition silent {A} (o : outcome A) : printed A := ([], o).

(** The decimal numeral of a count. *)
Definition decimal (n : nat) : pystr := str (pretty n).

(** [len(v)] *)
Definition len (h : heap) (v : val) : outcome nat :=
  match v with
  | VStr s => Ok (length s)
  | VRef l =>
      match h !! l with
      | Some (OList xs) => Ok (length xs)
      | Some (ODict d) => Ok (length d)
      | Some _ => Raise TypeError
      | None => Unmodelled
      end
  | _ => Raise TypeError
  end.

(** [f"{v}"] and [str(v)] where [v] may be a [Text] instance, which shows
    as its [__repr__]. *)
Definition format_in (h : heap) (v : val) : outcome pystr :=
  match v with
  | VRef l =>
      match h !! l with
      | Some (OText _) => Text.repr h v
      | _ => Unmodelled
      end
  | _ => format v
  end.

(** Keys of a [Counter] or a [defaultdict]: two values are the same key
    when they are equal, and [True] equals [1] as [False] equals [0].
    Float keys are not followed. *)
Inductive hkey := KNone | KNum (z : Z) | KStr (s : pystr).

Global Instance hkey_eq_dec : EqDecision hkey.
Proof. solve_decision. Defined.

(** The key a value is, once hashed. *)
Definition key_of (v : val) : outcome hkey :=
  match v with
  | VNone => Ok KNone
  | VBool b => Ok (KNum (if b then 1 else 0))
  | VInt z => Ok (KNum z)
  | VStr s => Ok (KStr s)
  | VFloat _ => Unmodelled
  | VRef _ => Raise TypeError
  end.

(** [sorted(items, key=...)] is stable: an item goes before the first
    item whose key is not smaller.  The keys here are counts. *)
Fixpoint insert_by {A} (key : A → nat) (x : A) (l : list A) : list A :=
  match l with
  | [] => [x]
  | y :: l' =>
      if decide (key x ≤ key y) then x :: l else y :: insert_by key x l'
  end.

Definition sorted_by {A} (key : A → nat) (l : list A) : list A :=
  foldr (insert_by key) [] l.

(** [msg.text.count(word, case_sensitive)]: the method of what [msg.text]
    is.  For a str the second argument is the index the search starts at. *)
Definition call_count (lower : pystr → pystr) (h : heap) (text : val)
    (word : pystr) (case_sensitive : bool) : outcome nat :=
  match text with
  | VRef l =>
      match h !! l with
      | Some (OText _) => Text.count lower h text word case_sensitive
      | Some (OList _) => Raise TypeError
      | Some _ => Raise AttributeError
      | None => Unmodelled
      end
  | VStr s =>
      Ok (if case_sensitive
          then match s with [] => 0 | _ :: s' => str_count s' word end
          else str_count s word)
  | _ => Raise AttributeError
  end.

Definition text_count (lower : pystr → pystr) (h : heap) (msg : val)
    (word : pystr) (case_sensitive : bool) : outcome nat :=
  text ← getattr h msg p_text;
  call_count lower h text word case_sensitive.

(** [f"{item}: {count}"] *)
Definition count_line (item : pystr) (count : nat) : pystr :=
  item ++ str ": " ++ decimal count.

Module MsgCount.

(** The [Counter] of the users: per key the value first stored under it
    and its count, in insertion order. *)
Abbreviation counter := (list (hkey * (val * nat))) (only parsing).

(** [count[usr] += 1] *)
Definition incr (usr : val) (count : counter) : outcome counter :=
  k ← key_of usr;
  Ok (match dict_get k count with
      | Some (u, n) => dict_set k (u, n + 1) count
      | None => dict_set k (usr, 0 + 1) count
      end).

(** The loop over the messages; an [AttributeError] of its body is
    suppressed and the loop goes on. *)
Fixpoint tally (h : heap) (msgs : list val) (count : counter) : outcome counter :=
  match msgs with
  | [] => Ok count
  | msg :: msgs' =>
      match (usr ← from_usr h msg; incr usr count) with
      | Ok count' => tally h msgs' count'
      | Raise AttributeError => tally h msgs' count
      | Raise e => Raise e
      | Unmodelled => Unmodelled
      end
  end.

(** The loop that prints [f"{usr}: {msgs}"]. *)
Fixpoint print_items (items : list (val * nat)) : printed unit :=
  match items with
  | [] => silent (Ok ())
  | (usr, msgs) :: items' =>
      match format usr with
      | Ok u => print_then (count_line u msgs) (print_items items')
      | Raise e => silent (Raise e)
      | Unmodelled => silent Unmodelled
      end
  end.

(** [App._MsgCount.run] *)
Definition run (per_user : bool) (h : heap) (chat : val) : printed unit :=
  if negb per_user then
    match (ms ← ChatExport.messages h chat; len h ms) with
    | Ok n => print_then (decimal n) (silent (Ok ()))
    | Raise e => silent (Raise e)
    | Unmodelled => silent Unmodelled
    end
  else
    match (ms ← ChatExport.messages h chat; els ← iter h ms; tally h els []) with
    | Ok count => print_items (sorted_by snd (snd <$> count))
    | Raise e => silent (Raise e)
    | Unmodelled => silent Unmodelled
    end.

End MsgCount.

Module WordGrep.

(** [f"{word}: [{msg.from_usr}] {msg.text}"]: the parts are evaluated and
    formatted from left to right. *)
Definition match_line (h : heap) (msg : val) (word : pystr) : outcome pystr :=
  usr ← from_usr h msg;
  u ← format_in h usr;
  text ← getattr h msg p_text;
  t ← format_in h text;
  Ok (word ++ str ": [" ++ u ++ str "] " ++ t).

Section run.

Variable lower : pystr → pystr.

(** The loop over the words for one message. *)
Fixpoint grep_words (h : heap) (case_sensitive : bool) (msg : val)
    (words : list pystr) : printed unit :=
  match words with
  | [] => silent (Ok ())
  | word :: words' =>
      match text_count lower h msg word case_sensitive with
      | Ok 0 => grep_words h case_sensitive msg words'
      | Ok (S _) =>
          match match_line h msg word with
          | Ok line => print_then line (grep_words h case_sensitive msg words')
          | Raise e => silent (Raise e)
          | Unmodelled => silent Unmodelled
          end
      | Raise e => silent (Raise e)
      | Unmodelled => silent Unmodelled
      end
  end.

(** The loop over the messages. *)
Fixpoint grep_messages (h : heap) (case_sensitive : bool) (msgs : list val)
    (words : list pystr) : printed unit :=
  match msgs with
  | [] => silent (Ok ())
  | msg :: msgs' =>
      match grep_words h case_sensitive msg words with
      | (out, Ok _) =>
          let rest := grep_messages h case_sensitive msgs' words in
          (out ++ rest.1, rest.2)
      | (out, Raise e) => (out, Raise e)
      | (out, Unmodelled) => (out, Unmodelled)
      end
  end.

(** [App._WordGrep.run] *)
Definition run (words : list pystr) (case_sensitive : bool) (h : heap)
    (chat : val) : printed unit :=
  match (ms ← ChatExport.messages h chat; iter h ms) with
  | Ok els => grep_messages h case_sensitive els words
  | Raise e => silent (Raise e)
  | Unmodelled => silent Unmodelled
  end.

End run.

End WordGrep.

(** ** [textwrap.indent] and the order of strs *)

(** The characters [str.splitlines] breaks a line at. *)
Definition is_linebreak (c : N) : bool :=
  bool_decide (c ∈ [10; 11; 12; 13; 28; 29; 30; 133; 8232; 8233]%N).

(** The characters [str.strip] takes away. *)
Definition is_space (c : N) : bool :=
  bool_decide (c ∈ [9; 10; 11; 12; 13; 28; 29; 30; 31; 32; 133; 160; 5760;
                    8192; 8193; 8194; 8195; 8196; 8197; 8198; 8199; 8200;
                    8201; 8202; 8232; 8233; 8239; 8287; 12288]%N).

(** [s.splitlines(True)], with [cur] the line read so far: a line ends
    with its line break, and a carriage return followed by a line feed is
    one break. *)
Fixpoint splitlines_keep (cur s : pystr) : list pystr :=
  match s with
  | [] => match cur with [] => [] | _ :: _ => [cur] end
  | c :: s' =>
      if is_linebreak c then
        match c, s' with
        | 13%N, 10%N :: s'' => (cur ++ [13; 10]%N) :: splitlines_keep [] s''
        | _, _ => (cur ++ [c]) :: splitlines_keep [] s'
        end
      else splitlines_keep (cur ++ [c]) s'
  end.

(** [textwrap.indent(text, prefix)]: the prefix goes before every line that
    is not made of white space only. *)
Definition indent (text prefix : pystr) : pystr :=
  concat ((λ line, if forallb is_space line then line else prefix ++ line)
            <$> splitlines_keep [] text).

(** [sep.join(lines)] for strs. *)
Fixpoint join_with (sep : pystr) (lines : list pystr) : pystr :=
  match lines with
  | [] => []
  | [line] => line
  | line :: lines' => line ++ sep ++ join_with sep lines'
  end.

(** [a <= b] on strs: by the first code point that differs, a prefix
    first. *)
Fixpoint str_le (a b : pystr) : bool :=
  match a, b with
  | [], _ => true
  | _ :: _, [] => false
  | x :: a', y :: b' =>
      if bool_decide (x = y) then str_le a' b' else bool_decide (x < y)%N
  end.

(** [sorted] on the items of a [Counter] of words: by the word, the words
    being different. *)
Fixpoint insert_word (x : pystr * nat) (l : list (pystr * nat)) : list (pystr * nat) :=
  match l with
  | [] => [x]
  | y :: l' => if str_le x.1 y.1 then x :: l else y :: insert_word x l'
  end.

Definition sorted_words (l : list (pystr * nat)) : list (pystr * nat) :=
  foldr insert_word [] l.

Module WordCount.

(** [count[word] += n] on a [Counter] of words. *)
Definition add (word : pystr) (n : nat) (count : list (pystr * nat)) :
    list (pystr * nat) :=
  dict_set word (default 0 (dict_get word count) + n) count.

(** [user_count[usr][word] += n] on the [defaultdict] of [Counter]s. *)
Definition add_user (usr : val) (word : pystr) (n : nat)
    (user_count : list (hkey * (val * list (pystr * nat)))) :
    outcome (list (hkey * (val * list (pystr * nat)))) :=
  k ← key_of usr;
  Ok (match dict_get k user_count with
      | Some (u, word_counts) => dict_set k (u, add word n word_counts) user_count
      | None => dict_set k (usr, add word n []) user_count
      end).

(** The lines of [for item, count in count.items(): print(...)]. *)
Definition count_lines (count : list (pystr * nat)) : list pystr :=
  (λ wc, count_line wc.1 wc.2) <$> count.

(** What is printed for one user: the user, then the indented block of
    the words in sorted order. *)
Definition user_block (usr : val) (word_counts : list (pystr * nat)) :
    outcome (list pystr) :=
  u ← format usr;
  Ok [u; indent (join_with (str (String (ascii_of_nat 10) EmptyString))
                   (count_lines (sorted_words word_counts)))
               (str "- ")].

Fixpoint print_users (users : list (val * list (pystr * nat))) : printed unit :=
  match users with
  | [] => silent (Ok ())
  | (usr, word_counts) :: users' =>
      match user_block usr word_counts with
      | Ok lines => let rest := print_users users' in (lines ++ rest.1, rest.2)
      | Raise e => silent (Raise e)
      | Unmodelled => silent Unmodelled
      end
  end.

Section run.

Variable lower : pystr → pystr.

(** The loops without [--per-user]. *)
Fixpoint count_words (h : heap) (case_sensitive : bool) (msg : val)
    (words : list pystr) (count : list (pystr * nat)) :
    outcome (list (pystr * nat)) :=
  match words with
  | [] => Ok count
  | word :: words' =>
      n ← text_count lower h msg word case_sensitive;
      count_words h case_sensitive msg words' (add word n count)
  end.

Fixpoint count_messages (h : heap) (case_sensitive : bool) (msgs : list val)
    (words : list pystr) (count : list (pystr * nat)) :
    outcome (list (pystr * nat)) :=
  match msgs with
  | [] => Ok count
  | msg :: msgs' =>
      count' ← count_words h case_sensitive msg words count;
      count_messages h case_sensitive msgs' words count'
  end.

(** The loops with [--per-user]: the sender is read only when the word was
    found. *)
Fixpoint user_words (h : heap) (case_sensitive : bool) (msg : val)
    (words : list pystr) (user_count : list (hkey * (val * list (pystr * nat)))) :
    outcome (list (hkey * (val * list (pystr * nat)))) :=
  match words with
  | [] => Ok user_count
  | word :: words' =>
      n ← text_count lower h msg word case_sensitive;
      match n with
      | O => user_words h case_sensitive msg words' user_count
      | S _ =>
          usr ← from_usr h msg;
          user_count' ← add_user usr word n user_count;
          user_words h case_sensitive msg words' user_count'
      end
  end.

Fixpoint user_messages (h : heap) (case_sensitive : bool) (msgs : list val)
    (words : list pystr) (user_count : list (hkey * (val * list (pystr * nat)))) :
    outcome (list (hkey * (val * list (pystr * nat)))) :=
  match msgs with
  | [] => Ok user_count
  | msg :: msgs' =>
      user_count' ← user_words h case_sensitive msg words user_count;
      user_messages h case_sensitive msgs' words user_count'
  end.

(** [App._WordCount.run] *)
Definition run (words : list pystr) (case_sensitive per_user : bool)
    (h : heap) (chat : val) : printed unit :=
  match (ms ← ChatExport.messages h chat; iter h ms) with
  | Ok els =>
      if negb per_user then
        match count_messages h case_sensitive els words [] with
        | Ok count => (count_lines count, Ok ())
        | Raise e => silent (Raise e)
        | Unmodelled => silent Unmodelled
        end
      else
        match user_messages h case_sensitive els words [] with
        | Ok user_count => print_users (snd <$> user_count)
        | Raise e => silent (Raise e)
        | Unmodelled => silent Unmodelled
        end
  | Raise e => silent (Raise e)
  | Unmodelled => silent Unmodelled
  end.

End run.

End WordCount.

(** ** The messages as the commands see them *)

(** The sender of a message as the loop of [msgcount] sees it: its key and
    value, or nothing for a message that has no property [from_usr]. *)
Definition sender_key (h : heap) (msg : val) : option (option (hkey * val)) :=
  match from_usr h msg with
  | Ok usr =>
      match key_of usr with
      | Ok k => Some (Some (k, usr))
      | _ => None
      end
  | Raise AttributeError => Some None
  | _ => None
  end.

(** The messages among [ss] sent under the key [k]. *)
Definition sent_by (k : hkey) (ss : list (option (hkey * val))) : nat :=
  length (filter (λ kv, kv.1 = k) (omap id ss)).

(** The sender of a message as a line of [wgrep] shows it, or nothing for
    a message that has no property [from_usr]. *)
Definition sender_shown (h : heap) (msg : val) : option (option pystr) :=
  match from_usr h msg with
  | Ok usr =>
      match format_in h usr with
      | Ok u => Some (Some u)
      | _ => None
      end
  | Raise AttributeError => Some None
  | _ => None
  end.

(** The text of a message as a line of [wgrep] shows it. *)
Definition text_shown (h : heap) (msg : val) : option pystr :=
  match (text ← getattr h msg p_text; format_in h text) with
  | Ok t => Some t
  | _ => None
  end.

(** How often each of the words is found in a message. *)
Definition found (lower : pystr → pystr) (h : heap) (case_sensitive : bool)
    (words : list pystr) (msg : val) : option (list nat) :=
  mapM (λ word, match text_count lower h msg word case_sensitive with
                | Ok n => Some n
                | _ => None
                end) words.

(** The lines of [wgrep] for a message of sender [u] and text [t]: one per
    word that is found. *)
Definition grep_lines (u t : pystr) (words : list pystr) (ns : list nat) :
    list pystr :=
  omap (λ wn, match wn.2 with
              | O => None
              | S _ => Some (wn.1 ++ str ": [" ++ u ++ str "] " ++ t)
              end) (zip words ns).

(** The numbers of a list never go down. *)
Fixpoint ascending (l : list nat) : bool :=
  match l with
  | [] => true
  | x :: l' => forallb (λ y, x <=? y) l' && ascending l'
  end.

(** The store after the document of [anonymous_store]-like records is
    loaded: the message at 3 has no sender. *)
Definition nameless_chat_store : gmap positive obj :=
  (ChatExport.new (VRef 1%positive)
     (list_to_map
        [(1%positive, ODict [(str "messages", VRef 2%positive)]);
         (2%positive, OList [VRef 3%positive; VRef 4%positive]);
         (3%positive, ODict record_hi);
         (4%positive, ODict record_no_sender)])).2.

(** A chat of five messages from ["A"] and ["B"] with service messages in
    between, loaded: A sent three of them and B two. *)
Definition busy_chat_store : gmap positive obj :=
  (ChatExport.new (VRef 1%positive)
     (list_to_map
        [(1%positive, ODict [(str "messages", VRef 2%positive)]);
         (2%positive, OList [VRef 3%positive; VRef 4%positive; VRef 5%positive;
                             VRef 6%positive; VRef 7%positive; VRef 8%positive;
                             VRef 9%positive]);
         (3%positive, ODict [(str "type", VStr (str "message"));
                             (str "from", VStr (str "A")); (str "text", VStr (str "one"))]);
         (4%positive, ODict [(str "type", VStr (str "service"));
                             (str "action", VStr (str "pin")); (str "text", VStr (str ""))]);
         (5%positive, ODict [(str "type", VStr (str "message"));
                             (str "from", VStr (str "B")); (str "text", VStr (str "two"))]);
         (6%positive, ODict [(str "type", VStr (str "message"));
                             (str "from", VStr (str "A")); (str "text", VStr (str "three"))]);
         (7%positive, ODict [(str "type", VStr (str "service"));
                             (str "action", VStr (str "join")); (str "text", VStr (str "Someone joined"))]);
         (8%positive, ODict [(str "type", VStr (str "message"));
                             (str "from", VStr (str "B")); (str "text", VStr (str "four one"))]);
         (9%positive, ODict [(str "type", VStr (str "message"));
                             (str "from", VStr (str "A")); (str "text", VStr (str "five"))])])).2.

(** The senders of the seven messages of [busy_chat_store]. *)
Definition busy_senders : list (option (hkey * val)) :=
  [Some (KStr (str "A"), VStr (str "A")); None;
   Some (KStr (str "B"), VStr (str "B"));
   Some (KStr (str "A"), VStr (str "A")); None;
   Some (KStr (str "B"), VStr (str "B"));
   Some (KStr (str "A"), VStr (str "A"))].

(** None of the words is found. *)
Definition none_found (ns : list nat) : bool := forallb (Nat.eqb 0) ns.

(** A message as [wgrep] sees it: how its sender and its text show, and how
    often each word is found. *)
Definition grep_view (lower : pystr → pystr) (h : heap) (case_sensitive : bool)
    (words : list pystr) (msg : val) : option (option pystr * pystr * list nat) :=
  s ← sender_shown h msg;
  t ← text_shown h msg;
  ns ← found lower h case_sensitive words msg;
  Some (s, t, ns).

(** The lines of [wgrep] for a message. *)
Definition view_lines (words : list pystr)
    (v : option pystr * pystr * list nat) : list pystr :=
  match v.1.1 with
  | Some u => grep_lines u v.1.2 words v.2
  | None => []
  end.

(** A message that has a sender, or in which none of the words is found. *)
Definition grep_safe (v : option pystr * pystr * list nat) : bool :=
  match v.1.1 with
  | Some _ => true
  | None => none_found v.2
  end.

(** A message as [wcount --per-user] sees it. *)
Definition count_view (lower : pystr → pystr) (h : heap) (case_sensitive : bool)
    (words : list pystr) (msg : val) : option (option (hkey * val) * list nat) :=
  s ← sender_key h msg;
  ns ← found lower h case_sensitive words msg;
  Some (s, ns).

Definition count_safe (v : option (hkey * val) * list nat) : bool :=
  match v.1 with
  | Some _ => true
  | None => none_found v.2
  end.

(** The sum of the [j]-th counts of the messages. *)
Definition total_at (j : nat) (nss : list (list nat)) : nat :=
  sum_list ((λ ns, default 0 (ns !! j)) <$> nss).

(** The words of a list never go down in the order of strs. *)
Fixpoint ascending_words (l : list pystr) : bool :=
  match l with
  | [] => true
  | x :: l' => forallb (str_le x) l' && ascending_words l'
  end.

(** A str without a character that [splitlines] breaks at. *)
Definition one_line (s : pystr) : bool := forallb (λ c, negb (is_linebreak c)) s.
Arguments str : simpl never.

(** ** Dicts *)

Section dict_lemmas.

Context `{EqDecision K} {V : Type}.
Implicit Types (k : K) (v : V) (d : list (K * V)).

Lemma dict_get_set_eq k v d : dict_get k (dict_set k v d) = Some v.
Proof.
  induction d as [|[k' v'] d IH]; simpl.
  - by rewrite decide_True.
  - destruct (decide (k' = k)) as [->|Hne]; simpl.
    + by rewrite decide_True.
    + by rewrite decide_False.
Qed.

Lemma dict_get_set_ne k k' v d :
  k ≠ k' → dict_get k' (dict_set k v d) = dict_get k' d.
Proof.
  intros Hne. induction d as [|[k0 v0] d IH]; simpl.
  - by rewrite decide_False.
  - destruct (decide (k0 = k)) as [->|Hk]; simpl.
    + by rewrite !decide_False.
    + by rewrite IH.
Qed.

(** Assigning to a key the dict has keeps every key at its place. *)
Lemma dict_set_keys k v d :
  is_Some (dict_get k d) → (dict_set k v d).*1 = d.*1.
Proof.
  induction d as [|[k0 v0] d IH]; simpl; intros Hk.
  - by destruct Hk.
  - destruct (decide (k0 = k)) as [->|Hne]; [done|].
    change (k0 :: (dict_set k v d).*1 = k0 :: d.*1).
    f_equal. by apply IH.
Qed.

End dict_lemmas.

(** ** [str.count] *)

Lemma starts_with_length sub s :
  starts_with sub s = true → length sub ≤ length s.
Proof.
  revert s. induction sub as [|a sub IH]; intros [|b s]; simpl; try lia; try done.
  intros [_ H]%andb_prop. apply IH in H. lia.
Qed.

Lemma count_scan_skip sub k s :
  count_scan sub k s = count_scan sub 0 (drop k s).
Proof.
  revert k. induction s as [|c s IH]; intros [|k]; try done.
  simpl count_scan at 1. by rewrite IH.
Qed.

Lemma count_scan_occurrences sub n s :
  sub ≠ [] → length s ≤ n →
  count_scan sub 0 s = spec_occurrences_within n sub s.
Proof.
  intros Hsub. revert s.
  induction n as [|n IH]; intros [|c s] Hlen; simpl in *; try done; try lia.
  destruct (starts_with sub (c :: s)) eqn:Hpre.
  - f_equal. rewrite count_scan_skip.
    destruct sub as [|a sub]; [done|]. simpl.
    rewrite Nat.sub_0_r. apply IH. rewrite length_drop. lia.
  - apply IH. lia.
Qed.

(** The scan of [str.count] finds the occurrences as the specification
    counts them. *)
Lemma str_count_occurrences s sub :
  sub ≠ [] → str_count s sub = spec_occurrences sub s.
Proof.
  intros Hsub. unfold str_count, spec_occurrences.
  destruct sub as [|a sub]; [done|].
  by apply count_scan_occurrences.
Qed.

(** A match is counted once and the scan goes on behind it. *)
Lemma str_count_match sub s :
  sub ≠ [] → str_count (sub ++ s) sub = S (str_count s sub).
Proof.
  intros Hsub. destruct sub as [|a sub]; [done|].
  unfold str_count. simpl.
  assert (Hpre : ∀ (u t : list N), starts_with u (u ++ t) = true).
  { induction u as [|x u IHu]; intros t; simpl; [done|].
    by rewrite bool_decide_eq_true_2, IHu. }
  rewrite bool_decide_eq_true_2 by done. rewrite Hpre. simpl.
  rewrite Nat.sub_0_r, count_scan_skip. by rewrite drop_app_length.
Qed.

(** Where the word does not start, the scan moves on by one character. *)
Lemma str_count_no_match sub c s :
  sub ≠ [] → starts_with sub (c :: s) = false →
  str_count (c :: s) sub = str_count s sub.
Proof.
  intros Hsub Hpre. destruct sub as [|a sub]; [done|].
  unfold str_count. cbn [count_scan]. by rewrite Hpre.
Qed.

(** ** The store *)

Lemma fresh_not_allocated (h : gmap positive obj) : h !! fresh (dom h) = None.
Proof. apply not_elem_of_dom, is_fresh. Qed.

(** An allocation leaves the objects there are as they are. *)
Lemma lookup_alloc (h : gmap positive obj) o l :
  is_Some (h !! l) → <[fresh (dom h) := o]> h !! l = h !! l.
Proof.
  intros Hl. apply lookup_insert_ne. intros <-.
  rewrite fresh_not_allocated in Hl. by destruct Hl.
Qed.

(** ** The lower-casing of the examples *)

Lemma lower_cp_idem c : flat_map lower_cp (lower_cp c) = lower_cp c.
Proof.
  unfold lower_cp.
  destruct ((65 <=? c)%N && (c <=? 90)%N) eqn:H1.
  { apply andb_prop in H1 as [Ha%N.leb_le Hb%N.leb_le]. simpl.
    rewrite app_nil_r. unfold lower_cp.
    replace ((65 <=? c + 32)%N && (c + 32 <=? 90)%N) with false
      by (symmetry; apply andb_false_iff; right; apply N.leb_gt; lia).
    replace ((192 <=? c + 32)%N && (c + 32 <=? 222)%N && negb (c + 32 =? 215)%N)
      with false
      by (symmetry; apply andb_false_iff; left; apply andb_false_iff; left;
          apply N.leb_gt; lia).
    by replace (c + 32 =? 304)%N with false by (symmetry; apply N.eqb_neq; lia). }
  destruct ((192 <=? c)%N && (c <=? 222)%N && negb (c =? 215)%N) eqn:H2.
  { apply andb_prop in H2 as [[Ha%N.leb_le Hb%N.leb_le]%andb_prop Hc].
    simpl. rewrite app_nil_r. unfold lower_cp.
    replace ((65 <=? c + 32)%N && (c + 32 <=? 90)%N) with false
      by (symmetry; apply andb_false_iff; right; apply N.leb_gt; lia).
    replace ((192 <=? c + 32)%N && (c + 32 <=? 222)%N && negb (c + 32 =? 215)%N)
      with false
      by (symmetry; apply andb_false_iff; left; apply andb_false_iff; right;
          apply N.leb_gt; lia).
    by replace (c + 32 =? 304)%N with false by (symmetry; apply N.eqb_neq; lia). }
  destruct (c =? 304)%N eqn:H3; [done|].
  simpl. rewrite app_nil_r. unfold lower_cp. by rewrite H1, H2, H3.
Qed.

(** Lower-casing twice is lower-casing once. *)
Lemma lower_latin_idem s : lower_latin (lower_latin s) = lower_latin s.
Proof.
  unfold lower_latin. induction s as [|c s IH]; [done|].
  simpl. by rewrite flat_map_app, IH, lower_cp_idem.
Qed.

(** Lower-casing leaves no string empty but the empty one. *)
Lemma lower_latin_nil s : lower_latin s = [] → s = [].
Proof.
  destruct s as [|c s]; [done|]. unfold lower_latin. simpl.
  intros [H _]%app_eq_nil. unfold lower_cp in H.
  by repeat case_match.
Qed.

(** ** [Message.Text] *)

Lemma join_strs (ss : list (list N)) : join (VStr <$> ss) = Ok (concat ss).
Proof. induction ss as [|s ss IH]; csimpl; [done|]. by rewrite IH. Qed.

Lemma repr_el_segment h v g :
  segment_of h v = Some g →
  Text.repr_el h v = Ok (VStr (spec_render_segment g)).
Proof.
  unfold segment_of, Text.repr_el, subscript. intros H.
  destruct v as [| | | |s|l]; try done.
  - by injection H as <-.
  - destruct (h !! l) as [[d| | | |]|]; try done.
    destruct (dict_get (str "type") d) as [[| | | |ty|]|]; try done;
      destruct (dict_get (str "text") d) as [[| | | |t|]|]; try done;
      by injection H as <-.
Qed.

Lemma repr_loop_segments h els gs res :
  mapM (segment_of h) els = Some gs →
  Text.repr_loop h els res = Ok (res ++ (VStr <$> (spec_render_segment <$> gs))).
Proof.
  intros H%mapM_Some_1. revert res.
  induction H as [|v g els gs Hv _ IH]; intros res; csimpl.
  - by rewrite app_nil_r.
  - rewrite (repr_el_segment _ _ _ Hv). csimpl.
    rewrite IH. by rewrite <- app_assoc.
Qed.

(** What [segments] says about the store. *)
Lemma segments_inv h self gs :
  segments h self = Some gs →
  ∃ t l xs, self = VRef t ∧ h !! t = Some (OText (VRef l)) ∧
    h !! l = Some (OList xs) ∧ mapM (segment_of h) xs = Some gs.
Proof.
  unfold segments. intros H.
  destruct self as [| | | | |t]; try done.
  destruct (h !! t) as [[| |[| | | | |l]| |]|] eqn:Ht; try done.
  destruct (h !! l) as [[|xs| | |]|] eqn:Hl; try done.
  by exists t, l, xs.
Qed.

Lemma repr_segments h self gs :
  segments h self = Some gs → Text.repr h self = Ok (spec_render gs).
Proof.
  intros (t & l & xs & -> & Ht & Hl & Hxs)%segments_inv.
  unfold Text.repr, Text.contents, iter. rewrite Ht. simpl. rewrite Hl. simpl.
  rewrite (repr_loop_segments _ _ _ _ Hxs). simpl.
  apply join_strs.
Qed.

(** [Text(raw_contents=s)] for a str, and for any other value. *)
Lemma Text_new_str h s :
  let l := fresh (dom h) in
  let h1 := <[l := OList [VStr s]]> h in
  let t := fresh (dom h1) in
  Text.new (VStr s) h = (Ok (VRef t), <[t := OText (VRef l)]> h1).
Proof. reflexivity. Qed.

Lemma Text_new_other h raw :
  (∀ s, raw ≠ VStr s) →
  Text.new raw h =
    (Ok (VRef (fresh (dom h))), <[fresh (dom h) := OText raw]> h).
Proof. intros Hraw. destruct raw; try reflexivity. by destruct (Hraw s). Qed.

(** The instance [Text.new] returns is new, its [contents] is a new list
    holding the str or else the raw value itself, and no object that was
    there is touched. *)
Lemma Text_new_spec h raw :
  ∃ t c h',
    Text.new raw h = (Ok (VRef t), h') ∧
    h !! t = None ∧
    h' !! t = Some (OText c) ∧
    (∀ l, is_Some (h !! l) → h' !! l = h !! l) ∧
    (∀ l o, h' !! l = Some o → is_Some (h !! l) ∨
       l = t ∨ (∃ s, raw = VStr s ∧ o = OList [VStr s])) ∧
    (∀ s, raw = VStr s →
       ∃ l, c = VRef l ∧ h !! l = None ∧ h' !! l = Some (OList [VStr s])) ∧
    ((∀ s, raw ≠ VStr s) → c = raw).
Proof.
  assert (Hcases : (∃ s, raw = VStr s) ∨ (∀ s, raw ≠ VStr s))
    by (destruct raw; eauto).
  destruct Hcases as [[s ->]|Hraw'].
  - rewrite Text_new_str.
    set (l := fresh (dom h)). set (h1 := <[l := OList [VStr s]]> h).
    set (t := fresh (dom h1)).
    assert (Hl : h !! l = None) by apply fresh_not_allocated.
    assert (Ht : h1 !! t = None) by apply fresh_not_allocated.
    assert (Htl : t ≠ l).
    { intros E. rewrite E in Ht. unfold h1 in Ht.
      by rewrite lookup_insert_eq in Ht. }
    assert (Hth : h !! t = None).
    { unfold h1 in Ht. by rewrite lookup_insert_ne in Ht. }
    exists t, (VRef l), (<[t := OText (VRef l)]> h1).
    split_and!; [done|done|by rewrite lookup_insert_eq| | | |].
    + intros l' [o Ho]. unfold h1.
      rewrite !lookup_insert_ne; [done|congruence|congruence].
    + intros l' o Ho.
      destruct (decide (l' = t)) as [->|Hne1]; [by right; left|].
      rewrite lookup_insert_ne in Ho by done. unfold h1 in Ho.
      destruct (decide (l' = l)) as [->|Hne2].
      * rewrite lookup_insert_eq in Ho. injection Ho as <-.
        right; right. by exists s.
      * rewrite lookup_insert_ne in Ho by done. left. by exists o.
    + intros s' [= <-]. exists l. split_and!; [done|done|].
      rewrite lookup_insert_ne by done. unfold h1.
      by rewrite lookup_insert_eq.
    + intros Hno. by destruct (Hno s).
  - rewrite Text_new_other by done.
    exists (fresh (dom h)), raw, (<[fresh (dom h) := OText raw]> h).
    split_and!; [done|apply fresh_not_allocated|by rewrite lookup_insert_eq| | | |done].
    + intros l Hl. by apply lookup_alloc.
    + intros l o Ho.
      destruct (decide (l = fresh (dom h))) as [->|Hne]; [by right; left|].
      rewrite lookup_insert_ne in Ho by done. left. by exists o.
    + intros s ->. by destruct (Hraw' s).
Qed.

Lemma searched_segment h v g :
  segment_of h v = Some g →
  Text.searched h v = Ok (VStr <$> segment_text g).
Proof.
  unfold segment_of, Text.searched, subscript. intros H.
  destruct v as [| | | |s|l]; try done.
  - by injection H as <-.
  - destruct (h !! l) as [[d| | | |]|]; try done.
    destruct (dict_get (str "type") d) as [[| | | |ty|]|]; try done;
      destruct (dict_get (str "text") d) as [[| | | |t|]|]; try done;
      by injection H as <-.
Qed.

Section count_lemmas.

Variable lower : list N → list N.

(** What the loop of [count] appends for a segment, with the word the call
    was given. *)
Local Abbreviation counted word cs :=
  (λ g, match segment_text g with
        | None => 0
        | Some t => if cs then str_count t word else str_count (lower t) (lower word)
        end).

(** The loop lower-cases [word] again at every segment it searches; that
    gives the same word when lower-casing the word twice does. *)
Lemma count_loop_segments h (cs : bool) word0 els gs :
  mapM (segment_of h) els = Some gs →
  (cs = false → lower (lower word0) = lower word0) →
  ∀ word counts,
    (if cs then word = word0 else lower word = lower word0) →
    ∃ counts',
      Text.count_loop lower h els word cs counts = Ok counts' ∧
      sum_list counts' = sum_list counts + sum_list (counted word0 cs <$> gs).
Proof.
  intros H%mapM_Some_1 Hidem.
  induction H as [|v g els gs Hv _ IH]; intros word counts Hword; csimpl.
  - exists counts. split; [done|lia].
  - rewrite (searched_segment _ _ _ Hv).
    destruct (segment_text g) as [t|]; csimpl.
    + destruct cs; csimpl.
      * subst word.
        destruct (IH word0 (counts ++ [str_count t word0]) eq_refl)
          as (counts' & -> & Hsum).
        exists counts'. split; [done|].
        rewrite Hsum, sum_list_with_app. simpl. lia.
      * destruct (IH (lower word) (counts ++ [str_count (lower t) (lower word)]))
          as (counts' & -> & Hsum).
        { rewrite Hword. by apply Hidem. }
        exists counts'. split; [done|].
        rewrite Hsum, sum_list_with_app, Hword. simpl. lia.
    + destruct (IH word counts Hword) as (counts' & -> & Hsum).
      exists counts'. split; [done|]. rewrite Hsum. lia.
Qed.

Lemma count_segments h self gs word (cs : bool) :
  segments h self = Some gs →
  (cs = false → lower (lower word) = lower word) →
  Text.count lower h self word cs = Ok (sum_list (counted word cs <$> gs)).
Proof.
  intros (t & l & xs & -> & Ht & Hl & Hxs)%segments_inv Hidem.
  unfold Text.count, Text.contents, iter. rewrite Ht. csimpl. rewrite Hl. csimpl.
  destruct (count_loop_segments h cs word xs gs Hxs Hidem word [])
    as (counts' & -> & Hsum); [by destruct cs|].
  csimpl. by rewrite Hsum.
Qed.

End count_lemmas.

(** ** The claims on [Message.Text] *)

(** C1. [count] of a non-empty word returns the sum over the segments of the
    non-overlapping left-to-right occurrences of the word: a plain string is
    searched itself, an entity through its [text], an entity without [text]
    adds nothing, and unless the search is case sensitive both the text and
    the word are lower-cased.  ([str.lower] enters through two facts about
    the word: lower-casing it twice is lower-casing it once, and it does not
    make it empty.) *)
Theorem count_sums_occurrences (lower : list N → list N) h self gs word
    (case_sensitive : bool) :
  segments h self = Some gs →
  word ≠ [] →
  (case_sensitive = false →
     lower word ≠ [] ∧ lower (lower word) = lower word) →
  Text.count lower h self word case_sensitive =
    Ok (spec_count lower gs word case_sensitive).
Proof.
  intros Hgs Hword Hlower.
  rewrite (count_segments lower h self gs word case_sensitive Hgs)
    by (intros Hcs; by apply Hlower).
  unfold spec_count. f_equal. f_equal. apply list_fmap_ext. intros _ g _.
  unfold spec_count_segment. destruct (segment_text g) as [t|]; [|done].
  destruct case_sensitive.
  - by apply str_count_occurrences.
  - apply str_count_occurrences. by apply Hlower.
Qed.

Lemma count_sums_occurrences_witness :
  Text.count lower_latin text_store (VRef 6%positive) (str "link") false = Ok 1
  ∧ Text.count lower_latin text_store (VRef 8%positive) (str "foo") false = Ok 3
  ∧ Text.count lower_latin text_store (VRef 8%positive) (str "foo") true = Ok 1.
Proof.
  split_and!.
  - apply (count_sums_occurrences lower_latin text_store (VRef 6%positive)
             [Plain (str "see "); Entity (str "link") None; Plain (str " link")]
             (str "link") false).
    + vm_compute. reflexivity.
    + vm_compute. discriminate.
    + intros _. vm_compute. split; [discriminate|reflexivity].
  - apply (count_sums_occurrences lower_latin text_store (VRef 8%positive)
             [Plain (str "Foo foo FOO")] (str "foo") false).
    + vm_compute. reflexivity.
    + vm_compute. discriminate.
    + intros _. vm_compute. split; [discriminate|reflexivity].
  - apply (count_sums_occurrences lower_latin text_store (VRef 8%positive)
             [Plain (str "Foo foo FOO")] (str "foo") true).
    + vm_compute. reflexivity.
    + vm_compute. discriminate.
    + intros [=].
Defined.

(** C2. [render] (the [__repr__] of [Text]) returns the concatenation, in
    segment order, of each plain string as itself and of each entity as its
    [text] if it has one and else as its type tag between angle brackets;
    and the [Text] built from a raw str [s] renders as [s]. *)
Theorem repr_renders_segments h :
  (∀ self gs,
     segments h self = Some gs → Text.repr h self = Ok (spec_render gs)) ∧
  (∀ s, ∃ self h',
     Text.new (VStr s) h = (Ok self, h') ∧ Text.repr h' self = Ok s).
Proof.
  split; [apply repr_segments|].
  intros s.
  destruct (Text_new_spec h (VStr s))
    as (t & c & h' & Hnew & Ht & Ht' & _ & _ & Hstr & _).
  destruct (Hstr s eq_refl) as (l & -> & _ & Hl').
  exists (VRef t), h'. split; [done|].
  unfold Text.repr, Text.contents, iter. rewrite Ht'. csimpl. rewrite Hl'.
  csimpl. by rewrite app_nil_r.
Qed.

Lemma repr_renders_segments_witness :
  Text.repr text_store (VRef 3%positive) = Ok (str "abc") ∧
  Text.repr text_store (VRef 6%positive) = Ok (str "see <link> link") ∧
  (∃ self h', Text.new (VStr (str "hello")) text_store = (Ok self, h') ∧
     Text.repr h' self = Ok (str "hello")).
Proof.
  split_and!.
  - apply (proj1 (repr_renders_segments text_store) (VRef 3%positive)
             [Plain (str "a"); Entity (str "link") (Some (str "b"));
              Plain (str "c")]).
    vm_compute. reflexivity.
  - apply (proj1 (repr_renders_segments text_store) (VRef 6%positive)
             [Plain (str "see "); Entity (str "link") None;
              Plain (str " link")]).
    vm_compute. reflexivity.
  - apply (proj2 (repr_renders_segments text_store) (str "hello")).
Defined.

(** C3. The [Text] built from a raw value has as its segment sequence the
    one-element sequence of that str when the raw value is a str, and
    otherwise the raw value itself, so for a raw list exactly its elements
    in their order: nothing is dropped, reordered or merged. *)
Theorem Text_keeps_raw_segments h raw :
  ∃ t c h',
    Text.new raw h = (Ok (VRef t), h') ∧
    Text.contents h' (VRef t) = Ok c ∧
    (∀ s, raw = VStr s → iter h' c = Ok [VStr s]) ∧
    ((∀ s, raw ≠ VStr s) → c = raw) ∧
    (∀ l xs, raw = VRef l → h !! l = Some (OList xs) →
       c = VRef l ∧ iter h' c = Ok xs).
Proof.
  destruct (Text_new_spec h raw)
    as (t & c & h' & Hnew & Ht & Ht' & Hkeep & _ & Hstr & Hother).
  exists t, c, h'. split_and!; [done| | |done|].
  - unfold Text.contents. by rewrite Ht'.
  - intros s Hs. destruct (Hstr s Hs) as (l & -> & _ & Hl').
    unfold iter. by rewrite Hl'.
  - intros l xs -> Hl.
    rewrite Hother by done. split; [done|].
    unfold iter. rewrite Hkeep by eauto. by rewrite Hl.
Qed.

Lemma Text_keeps_raw_segments_witness :
  (∃ t c h', Text.new (VStr (str "hi")) text_store = (Ok (VRef t), h') ∧
     Text.contents h' (VRef t) = Ok c ∧ iter h' c = Ok [VStr (str "hi")]) ∧
  (∃ t h', Text.new (VRef 4%positive) text_store = (Ok (VRef t), h') ∧
     Text.contents h' (VRef t) = Ok (VRef 4%positive) ∧
     iter h' (VRef 4%positive) =
       Ok [VStr (str "see "); VRef 5%positive; VStr (str " link")]).
Proof.
  split.
  - destruct (Text_keeps_raw_segments text_store (VStr (str "hi")))
      as (t & c & h' & Hnew & Hc & Hstr & _ & _).
    exists t, c, h'. split_and!; [exact Hnew|exact Hc|].
    apply Hstr. reflexivity.
  - destruct (Text_keeps_raw_segments text_store (VRef 4%positive))
      as (t & c & h' & Hnew & Hc & _ & _ & Hlist).
    destruct (Hlist 4%positive
                [VStr (str "see "); VRef 5%positive; VStr (str " link")]
                eq_refl) as [-> Hiter].
    { vm_compute. reflexivity. }
    exists t, h'. split_and!; [exact Hnew|exact Hc|exact Hiter].
Defined.

(** C10 (as amended). [count] of the empty word returns, for either value of
    [case_sensitive], the sum over the segments that have text of one more
    than the length of the text as it is searched, which is the lower-cased
    text unless the search is case sensitive; a segment without text adds
    nothing, and the result is at least 1 when some segment has text. *)
Theorem count_empty_word (lower : list N → list N) h self gs
    (case_sensitive : bool) :
  segments h self = Some gs →
  (case_sensitive = false → lower [] = []) →
  Text.count lower h self [] case_sensitive =
    Ok (spec_count_empty lower gs case_sensitive) ∧
  ((∃ g, g ∈ gs ∧ is_Some (segment_text g)) →
     1 ≤ spec_count_empty lower gs case_sensitive).
Proof.
  intros Hgs Hnil. split.
  - rewrite (count_segments lower h self gs [] case_sensitive Hgs)
      by (intros Hcs; by rewrite !(Hnil Hcs)).
    unfold spec_count_empty. f_equal. f_equal.
    apply list_fmap_ext. intros _ g _.
    unfold spec_count_empty_segment. destruct (segment_text g) as [t|]; [|done].
    destruct case_sensitive; [done|]. by rewrite (Hnil eq_refl).
  - intros (g & Hg & [t Ht]). unfold spec_count_empty.
    pose proof (sum_list_with_in _ id _
      (list_elem_of_fmap_2 (spec_count_empty_segment lower case_sensitive) _ _ Hg))
      as Hle.
    unfold spec_count_empty_segment at 1 in Hle. rewrite Ht in Hle.
    unfold id at 1 in Hle. lia.
Qed.

Lemma count_empty_word_witness :
  Text.count lower_latin text_store (VRef 6%positive) [] false = Ok 11 ∧
  Text.count lower_latin text_store (VRef 10%positive) [] true = Ok 2.
Proof.
  split.
  - apply (count_empty_word lower_latin text_store (VRef 6%positive)
             [Plain (str "see "); Entity (str "link") None;
              Plain (str " link")] false).
    + vm_compute. reflexivity.
    + intros _. reflexivity.
  - apply (count_empty_word lower_latin text_store (VRef 10%positive)
             [Plain [304%N]] true).
    + vm_compute. reflexivity.
    + intros [=].
Defined.

(** The text of the one character U+0130: its length is 1, and the empty
    word is counted three times in it when the search is not case
    sensitive, twice when it is. *)
Example count_empty_word_dotted_I :
  segments text_store (VRef 10%positive) = Some [Plain [304%N]] ∧
  Text.count lower_latin text_store (VRef 10%positive) [] false = Ok 3 ∧
  Text.count lower_latin text_store (VRef 10%positive) [] true = Ok 2.
Proof. by vm_compute. Qed.

(** C10 as stated, with the length of the segment text itself, fails where
    lower-casing changes the length: the text of the one character U+0130
    has length 1 and is searched as the two characters U+0069 U+0307, in
    which the empty word is found three times. *)
Lemma count_empty_word_not_text_length :
  ¬ (∀ h self gs (case_sensitive : bool),
       segments h self = Some gs →
       Text.count lower_latin h self [] case_sensitive =
         Ok (sum_list
               ((λ g, match segment_text g with
                      | None => 0
                      | Some t => S (length t)
                      end) <$> gs))).
Proof.
  intros H.
  specialize (H text_store (VRef 10%positive) [Plain [304%N]] false eq_refl).
  vm_compute in H. discriminate H.
Qed.

(** ** Running code in the store *)

Lemma bind_ok {A B} (m : M A) (f : A → M B) h a h' :
  m h = (Ok a, h') → (m ≫= f) h = f a h'.
Proof. intros H. unfold mbind, M_bind. by rewrite H. Qed.

Lemma bind_raise {A B} (m : M A) (f : A → M B) h e h' :
  m h = (Raise e, h') → (m ≫= f) h = (Raise e, h').
Proof. intros H. unfold mbind, M_bind. by rewrite H. Qed.

Lemma lift_ok {A} (f : gmap positive obj → outcome A) h a :
  f h = Ok a → lift f h = (Ok a, h).
Proof. intros H. unfold lift. by rewrite H. Qed.

(** ** [Message] *)

Lemma str_type_ne_text : str "type" ≠ str "text".
Proof. vm_compute. discriminate. Qed.

Lemma properties_text cls i :
  dict_get p_text (properties_of (OMessage cls i)) = Some (str "text").
Proof. by destruct cls. Qed.

(** A property of a message reads the entry of the record under its key. *)
Lemma getattr_message h m cls r d p key :
  h !! m = Some (OMessage cls (VRef r)) →
  h !! r = Some (ODict d) →
  dict_get p (properties_of (OMessage cls (VRef r))) = Some key →
  getattr h (VRef m) p =
    match dict_get key d with Some x => Ok x | None => Raise (KeyError key) end.
Proof.
  intros Hm Hr Hp. unfold getattr. rewrite Hm, Hp.
  unfold JsonObject.get, JsonObject._inner. rewrite Hm. csimpl.
  unfold subscript. by rewrite Hr.
Qed.

(** [Message.new] on a record that has a [text]. *)
Lemma Message_new_ok h cls r d raw :
  h !! r = Some (ODict d) →
  dict_get (str "text") d = Some raw →
  ∃ m t h',
    Message.new cls (VRef r) h = (Ok (VRef m), h') ∧
    h !! m = None ∧
    h !! t = None ∧
    h' !! m = Some (OMessage cls (VRef r)) ∧
    h' !! r = Some (ODict (dict_set (str "text") (VRef t) d)) ∧
    text_of_raw h' raw (VRef t) ∧
    (∀ l, is_Some (h !! l) → l ≠ r → h' !! l = h !! l).
Proof.
  intros Hr Htext.
  set (m := fresh (dom h)). set (h1 := <[m := OMessage cls (VRef r)]> h).
  assert (Hm : h !! m = None) by apply fresh_not_allocated.
  assert (Hrm : m ≠ r) by (intros E; rewrite E in Hm; congruence).
  assert (Hr1 : h1 !! r = Some (ODict d))
    by (unfold h1; by rewrite lookup_insert_ne).
  assert (Hm1 : h1 !! m = Some (OMessage cls (VRef r)))
    by (unfold h1; by rewrite lookup_insert_eq).
  destruct (Text_new_spec h1 raw)
    as (t & c & h2 & Hnew & Ht1 & Ht2 & Hkeep & _ & Hstr & Hother).
  assert (Htm : t ≠ m) by (intros E; rewrite E in Ht1; congruence).
  assert (Htr : t ≠ r) by (intros E; rewrite E in Ht1; congruence).
  assert (Hm2 : h2 !! m = Some (OMessage cls (VRef r)))
    by (rewrite Hkeep by eauto; done).
  assert (Hr2 : h2 !! r = Some (ODict d))
    by (rewrite Hkeep by eauto; done).
  exists m, t, (<[r := ODict (dict_set (str "text") (VRef t) d)]> h2).
  split_and!.
  - unfold Message.new.
    rewrite (bind_ok _ _ h m h1) by reflexivity.
    unfold Message.post_init.
    erewrite bind_ok; [reflexivity|].
    erewrite bind_ok; cycle 1.
    { apply lift_ok.
      rewrite (getattr_message h1 m cls r d p_text (str "text"))
        by auto using properties_text.
      by rewrite Htext. }
    erewrite bind_ok by exact Hnew.
    unfold JsonObject.set.
    erewrite bind_ok; cycle 1.
    { apply lift_ok. unfold JsonObject._inner. by rewrite Hm2. }
    unfold store_subscript. by rewrite Hr2.
  - done.
  - unfold h1 in Ht1. by rewrite lookup_insert_ne in Ht1.
  - by rewrite lookup_insert_ne.
  - by rewrite lookup_insert_eq.
  - exists c. split_and!.
    + unfold Text.contents. rewrite lookup_insert_ne by done. by rewrite Ht2.
    + intros s Hs. destruct (Hstr s Hs) as (l & -> & Hl1 & Hl2).
      unfold iter. rewrite lookup_insert_ne; [by rewrite Hl2|].
      intros E. rewrite <- E in Hl1. congruence.
    + done.
  - intros l Hl Hlr. rewrite lookup_insert_ne by done.
    rewrite Hkeep.
    + unfold h1. apply lookup_insert_ne. intros E. rewrite <- E in Hl.
      rewrite Hm in Hl. by destruct Hl.
    + unfold h1. destruct (decide (m = l)) as [->|Hne].
      * rewrite lookup_insert_eq. eauto.
      * by rewrite lookup_insert_ne.
Qed.

(** ** What converting records keeps *)

Lemma obj_kept_refl o : obj_kept o o.
Proof. by destruct o. Qed.

Lemma obj_kept_trans o1 o2 o3 : obj_kept o1 o2 → obj_kept o2 o3 → obj_kept o1 o3.
Proof.
  destruct o1, o2; simpl; try done; try (by intros [= <- ]);
    try (by intros [= <- <-]); destruct o3; simpl; try done.
  intros [H1 H1'] [H2 H2']. split.
  - intros k Hk. by rewrite H2, H1.
  - auto.
Qed.

Lemma kept_refl h : kept h h.
Proof. intros l o Hl. exists o. auto using obj_kept_refl. Qed.

Lemma kept_trans h1 h2 h3 : kept h1 h2 → kept h2 h3 → kept h1 h3.
Proof.
  intros H12 H23 l o Hl.
  destruct (H12 l o Hl) as (o2 & Hl2 & Ho2).
  destruct (H23 l o2 Hl2) as (o3 & Hl3 & Ho3).
  exists o3. eauto using obj_kept_trans.
Qed.

Lemma kept_alloc h o : kept h (<[fresh (dom h) := o]> h).
Proof.
  intros l o' Hl. exists o'. split; [|apply obj_kept_refl].
  rewrite lookup_alloc; eauto.
Qed.

Lemma kept_None h h' l : kept h h' → h' !! l = None → h !! l = None.
Proof.
  intros Hk Hl. destruct (h !! l) as [o|] eqn:Ho; [|done].
  destruct (Hk l o Ho) as (o' & Hl' & _). congruence.
Qed.

Lemma kept_message h h' m cls i :
  kept h h' → h !! m = Some (OMessage cls i) → h' !! m = Some (OMessage cls i).
Proof.
  intros Hk Hm. destruct (Hk _ _ Hm) as (o' & Hm' & Ho).
  simpl in Ho. by subst o'.
Qed.

Lemma kept_dict h h' r d :
  kept h h' → h !! r = Some (ODict d) →
  ∃ d', h' !! r = Some (ODict d') ∧
    (∀ k, k ≠ str "text" → dict_get k d' = dict_get k d) ∧
    (is_Some (dict_get (str "text") d) → is_Some (dict_get (str "text") d')).
Proof.
  intros Hk Hr. destruct (Hk _ _ Hr) as (o' & Hr' & Ho).
  destruct o' as [d'| | | |]; try done. by exists d'.
Qed.

Lemma kept_subscript h h' v k x :
  kept h h' → k ≠ str "text" →
  subscript h v k = Ok x → subscript h' v k = Ok x.
Proof.
  intros Hk Hne. unfold subscript.
  destruct v as [| | | | |l]; try done.
  destruct (h !! l) as [[d| | | |]|] eqn:Hl; try done.
  destruct (kept_dict _ _ _ _ Hk Hl) as (d' & -> & Hd' & _).
  by rewrite Hd'.
Qed.

Lemma str_messages_ne_text : str "messages" ≠ str "text".
Proof. vm_compute. discriminate. Qed.

Lemma kept_messages h h' self v :
  kept h h' →
  ChatExport.messages h self = Ok v → ChatExport.messages h' self = Ok v.
Proof.
  intros Hk. unfold ChatExport.messages, getattr.
  destruct self as [| | | | |s]; try done.
  destruct (h !! s) as [o|] eqn:Hs; [|done].
  destruct (Hk _ _ Hs) as (o' & -> & Ho).
  destruct o as [| | |[]|i]; try done. simpl in Ho. subst o'. simpl.
  unfold JsonObject.get, JsonObject._inner.
  rewrite Hs. destruct (Hk _ _ Hs) as (o' & -> & ->). csimpl.
  apply kept_subscript; auto using str_messages_ne_text.
Qed.

Lemma record_class_inv h rec cls :
  record_class h rec = Some cls →
  ∃ r d ty raw, rec = VRef r ∧ h !! r = Some (ODict d) ∧
    dict_get (str "type") d = Some (VStr ty) ∧
    dict_get (str "text") d = Some raw ∧
    dict_get ty MsgFactory.MAPPING = Some cls.
Proof.
  unfold record_class. intros H.
  destruct rec as [| | | | |r]; try done.
  destruct (h !! r) as [[d| | | |]|] eqn:Hr; try done.
  destruct (dict_get (str "type") d) as [[| | | |ty|]|] eqn:Hty; try done.
  destruct (dict_get (str "text") d) as [raw|] eqn:Hraw; try done.
  by exists r, d, ty, raw.
Qed.

Lemma record_unhandled_inv h rec ty :
  record_unhandled h rec = Some ty →
  ∃ r d msg_type, rec = VRef r ∧ h !! r = Some (ODict d) ∧
    dict_get (str "type") d = Some msg_type ∧
    MsgFactory.find msg_type = Ok None ∧
    format msg_type = Ok ty.
Proof.
  unfold record_unhandled. intros H.
  destruct rec as [| | | | |r]; try done.
  destruct (h !! r) as [[d| | | |]|] eqn:Hr; try done.
  destruct (dict_get (str "type") d) as [msg_type|] eqn:Hty; try done.
  destruct (MsgFactory.find msg_type) as [[cls|]| |] eqn:Hfind; try done.
  destruct (format msg_type) as [t| |] eqn:Hfmt; try done.
  injection H as <-. by exists r, d, msg_type.
Qed.

Lemma kept_record_class h h' rec cls :
  kept h h' → record_class h rec = Some cls → record_class h' rec = Some cls.
Proof.
  intros Hk (r & d & ty & raw & -> & Hr & Hty & Hraw & Hcls)%record_class_inv.
  destruct (kept_dict _ _ _ _ Hk Hr) as (d' & Hr' & Hd' & Htext).
  unfold record_class. rewrite Hr', Hd', Hty by apply str_type_ne_text.
  destruct Htext as [raw' ->]; [by eauto|done].
Qed.

Lemma kept_record_classes h h' recs clss :
  kept h h' →
  mapM (record_class h) recs = Some clss →
  mapM (record_class h') recs = Some clss.
Proof.
  intros Hk H%mapM_Some_1. apply mapM_Some_2.
  eapply Forall2_impl; [exact H|]. eauto using kept_record_class.
Qed.

Lemma kept_record_unhandled h h' rec ty :
  kept h h' →
  record_unhandled h rec = Some ty → record_unhandled h' rec = Some ty.
Proof.
  intros Hk (r & d & v & -> & Hr & Hty & Hfind & Hfmt)%record_unhandled_inv.
  destruct (kept_dict _ _ _ _ Hk Hr) as (d' & Hr' & Hd' & _).
  unfold record_unhandled.
  by rewrite Hr', Hd', Hty, Hfind, Hfmt by apply str_type_ne_text.
Qed.

(** ** [MsgFactory] *)

(** For a type in [MAPPING] the factory runs the constructor of the class. *)
Lemma get_message_new h r d ty cls :
  h !! r = Some (ODict d) →
  dict_get (str "type") d = Some (VStr ty) →
  dict_get ty MsgFactory.MAPPING = Some cls →
  MsgFactory.get_message (VRef r) h = Message.new cls (VRef r) h.
Proof.
  intros Hr Hty Hcls. unfold MsgFactory.get_message.
  erewrite bind_ok; cycle 1.
  { apply lift_ok. unfold subscript. by rewrite Hr, Hty. }
  erewrite bind_ok; cycle 1.
  { apply lift_ok. unfold MsgFactory.find, hashable. by rewrite Hcls. }
  done.
Qed.

(** For a type that is no key of [MAPPING] it raises, and the store is as
    before. *)
Lemma get_message_unhandled h rec ty :
  record_unhandled h rec = Some ty →
  MsgFactory.get_message rec h =
    (Raise (ValueError (str "Unhandled message type: " ++ ty)), h).
Proof.
  intros (r & d & v & -> & Hr & Hty & Hfind & Hfmt)%record_unhandled_inv.
  unfold MsgFactory.get_message.
  erewrite bind_ok; cycle 1.
  { apply lift_ok. unfold subscript. by rewrite Hr, Hty. }
  erewrite bind_ok; cycle 1.
  { apply lift_ok. exact Hfind. }
  cbv beta iota.
  erewrite bind_ok; cycle 1.
  { apply lift_ok. exact Hfmt. }
  done.
Qed.

(** A [type] that is a list, a dict or a class instance cannot be looked up
    in [MAPPING]: the test raises [TypeError] before any error of the
    factory's own. *)
Lemma get_message_unhashable h r d l :
  h !! r = Some (ODict d) →
  dict_get (str "type") d = Some (VRef l) →
  MsgFactory.get_message (VRef r) h = (Raise TypeError, h).
Proof.
  intros Hr Hty. unfold MsgFactory.get_message.
  erewrite bind_ok; cycle 1.
  { apply lift_ok. unfold subscript. by rewrite Hr, Hty. }
  by erewrite bind_raise.
Qed.

(** Converting one record: a new message wraps the record, lists are as
    they were, the rest is kept, and no object but the record changes. *)
Lemma get_message_ok h rec cls :
  record_class h rec = Some cls →
  ∃ m h',
    MsgFactory.get_message rec h = (Ok (VRef m), h') ∧
    h !! m = None ∧
    h' !! m = Some (OMessage cls rec) ∧
    kept h h' ∧
    (∀ l xs, h !! l = Some (OList xs) → h' !! l = Some (OList xs)) ∧
    (∀ l, is_Some (h !! l) → VRef l ≠ rec → h' !! l = h !! l).
Proof.
  intros (r & d & ty & raw & -> & Hr & Hty & Hraw & Hcls)%record_class_inv.
  destruct (Message_new_ok h cls r d raw Hr Hraw)
    as (m & t & h' & Hnew & Hm & Ht & Hm' & Hr' & _ & Hframe).
  exists m, h'. split_and!; [|done|done| | |].
  - by rewrite (get_message_new h r d ty cls).
  - intros l o Hl. destruct (decide (l = r)) as [->|Hne].
    + rewrite Hr in Hl. injection Hl as <-.
      eexists. split; [exact Hr'|]. simpl. split.
      * intros k Hk. by apply dict_get_set_ne.
      * intros _. rewrite dict_get_set_eq. eauto.
    + exists o. split; [|apply obj_kept_refl].
      rewrite Hframe; eauto.
  - intros l xs Hl. rewrite Hframe; [done|eauto|].
    intros ->. congruence.
  - intros l Hl Hne. apply Hframe; [done|]. congruence.
Qed.

(** ** [ChatExport] *)

(** Storing into a slot of a list keeps every other object. *)
Lemma kept_store_list h l xs xs' :
  h !! l = Some (OList xs) → kept h (<[l := OList xs']> h).
Proof.
  intros Hl l' o Hl'. destruct (decide (l' = l)) as [->|Hne].
  - rewrite Hl in Hl'. injection Hl' as <-.
    exists (OList xs'). by rewrite lookup_insert_eq.
  - exists o. rewrite lookup_insert_ne by done. auto using obj_kept_refl.
Qed.

(** The loop over a run of convertible records [good], followed by
    whatever [tail] is: when the loop reaches [tail], the slots of [good]
    hold new messages, one per record and in the order of the records, the
    slots before and after are as they were, and no object but the list and
    the records of [good] has changed. *)
Lemma convert_prefix self lm good :
  ∀ tail idx h pre clss,
    ChatExport.messages h self = Ok (VRef lm) →
    h !! lm = Some (OList (pre ++ good ++ tail)) →
    length pre = idx →
    mapM (record_class h) good = Some clss →
    ∃ h' ms,
      ChatExport.convert self idx (good ++ tail) h =
        ChatExport.convert self (idx + length good) tail h' ∧
      kept h h' ∧
      h' !! lm = Some (OList (pre ++ (VRef <$> ms) ++ tail)) ∧
      Forall2 (λ rc m, h' !! m = Some (OMessage rc.2 rc.1)) (zip good clss) ms ∧
      length ms = length good ∧
      Forall (λ m, h !! m = None) ms ∧
      NoDup ms ∧
      (∀ l, is_Some (h !! l) → l ≠ lm → VRef l ∉ good → h' !! l = h !! l).
Proof.
  induction good as [|rec good IH]; intros tail idx h pre clss Hself Hlm Hidx Hcls.
  - exists h, []. simpl. rewrite Nat.add_0_r.
    split_and!; auto using kept_refl, NoDup_nil_2.
  - apply mapM_Some_1 in Hcls.
    apply Forall2_cons_inv_l in Hcls as (cls & clss' & Hrec & Hgood & ->).
    apply mapM_Some_2 in Hgood.
    destruct (get_message_ok h rec cls Hrec)
      as (m & h1 & Hget & Hm & Hm1 & Hk1 & Hlists & Hframe).
    assert (Hlm1 := Hlists _ _ Hlm).
    set (xs' := pre ++ VRef m :: good ++ tail).
    set (h2 := <[lm := OList xs']> h1).
    assert (Hk2 : kept h1 h2) by (eapply kept_store_list; eauto).
    assert (Hmlm : m ≠ lm) by (intros E; rewrite E in Hm; congruence).
    assert (Hstep : ChatExport.convert self idx ((rec :: good) ++ tail) h =
                    ChatExport.convert self (S idx) (good ++ tail) h2).
    { simpl. erewrite bind_ok by exact Hget.
      erewrite bind_ok; cycle 1.
      { apply lift_ok. eapply kept_messages; eauto. }
      erewrite bind_ok; [reflexivity|].
      unfold store_index. rewrite Hlm1.
      rewrite decide_True by (rewrite length_app; simpl; lia).
      unfold h2, xs'. do 3 f_equal.
      rewrite insert_app_r_alt by lia.
      by replace (idx - length pre) with 0 by lia. }
    destruct (IH tail (S idx) h2 (pre ++ [VRef m]) clss')
      as (h' & ms & Hrun & Hk' & Hlm' & Hms & Hlen & Hfresh & Hnodup & Hrest).
    + eapply kept_messages; [|exact Hself]. eauto using kept_trans.
    + unfold h2, xs'. rewrite lookup_insert_eq. by rewrite <- app_assoc.
    + rewrite length_app. simpl. lia.
    + eapply kept_record_classes; [|exact Hgood]. eauto using kept_trans.
    + assert (Hm2 : h2 !! m = Some (OMessage cls rec))
        by (unfold h2; by rewrite lookup_insert_ne).
      exists h', (m :: ms). split_and!.
      * rewrite Hstep, Hrun. f_equal. simpl. lia.
      * eauto using kept_trans.
      * rewrite Hlm'. by rewrite <- app_assoc.
      * simpl. constructor; [|done]. simpl. eauto using kept_message.
      * simpl. by rewrite Hlen.
      * constructor; [done|].
        eapply Forall_impl; [exact Hfresh|]. simpl. intros m' Hm'.
        eauto using kept_None, kept_trans.
      * constructor; [|done]. intros Hin.
        rewrite Forall_forall in Hfresh. specialize (Hfresh _ Hin). congruence.
      * intros l Hl Hne Hnin. apply not_elem_of_cons in Hnin as [Hrec' Hgood'].
        assert (Hl1 : h1 !! l = h !! l) by (by apply Hframe).
        assert (Hl2 : h2 !! l = h1 !! l) by (unfold h2; by rewrite lookup_insert_ne).
        rewrite Hrest, Hl2, Hl1; [done| |done|done].
        by rewrite Hl2, Hl1.
Qed.

(** [ChatExport.new] up to the loop. *)
Lemma ChatExport_new_convert h doc lm recs :
  subscript h doc (str "messages") = Ok (VRef lm) →
  h !! lm = Some (OList recs) →
  let s := fresh (dom h) in
  let h0 := <[s := OChatExport doc]> h in
  kept h h0 ∧
  h !! s = None ∧
  h0 !! lm = Some (OList recs) ∧
  ChatExport.messages h0 (VRef s) = Ok (VRef lm) ∧
  ChatExport.new doc h =
    match ChatExport.convert (VRef s) 0 recs h0 with
    | (Ok _, h') => (Ok (VRef s), h')
    | (Raise e, h') => (Raise e, h')
    | (Unmodelled, h') => (Unmodelled, h')
    end.
Proof.
  intros Hdoc Hlm s h0.
  assert (Hk : kept h h0) by apply kept_alloc.
  assert (Hs : h !! s = None) by apply fresh_not_allocated.
  assert (Hlm0 : h0 !! lm = Some (OList recs))
    by (unfold h0, s; rewrite lookup_alloc; eauto).
  assert (Hms : ChatExport.messages h0 (VRef s) = Ok (VRef lm)).
  { unfold ChatExport.messages, getattr, h0. rewrite lookup_insert_eq. simpl.
    unfold JsonObject.get, JsonObject._inner. rewrite lookup_insert_eq. csimpl.
    eapply kept_subscript; eauto using str_messages_ne_text. }
  split_and!; try done.
  unfold ChatExport.new.
  rewrite (bind_ok _ _ h s h0) by reflexivity.
  unfold ChatExport.post_init, mbind at 1, M_bind at 1.
  erewrite bind_ok by (by apply lift_ok).
  erewrite bind_ok; cycle 1.
  { apply lift_ok. unfold iter. by rewrite Hlm0. }
  by destruct (ChatExport.convert (VRef s) 0 recs h0) as [[[]| |] h'].
Qed.

(** The messages of a converted run, slot by slot. *)
Lemma converted_lookup (h h' : gmap positive obj) good clss ms :
  length clss = length good →
  Forall2 (λ rc m, h' !! m = Some (OMessage rc.2 rc.1)) (zip good clss) ms →
  Forall (λ m, h !! m = None) ms →
  ∀ i rec, good !! i = Some rec →
    ∃ m cls, ms !! i = Some m ∧ clss !! i = Some cls ∧
      h !! m = None ∧ h' !! m = Some (OMessage cls rec).
Proof.
  intros Hlen Hms Hfresh i rec Hi.
  destruct (lookup_lt_is_Some_2 clss i) as [cls Hcls].
  { rewrite Hlen. eauto using lookup_lt_Some. }
  assert (Hzip : zip good clss !! i = Some (rec, cls)).
  { by apply lookup_zip_Some. }
  destruct (Forall2_lookup_l _ _ _ _ _ Hms Hzip) as (m & Hm & Hobj).
  exists m, cls. split_and!; try done.
  rewrite Forall_forall in Hfresh. apply Hfresh.
  eauto using list_elem_of_lookup_2.
Qed.

(** A load of convertible records. *)
Lemma ChatExport_new_ok h doc lm recs clss :
  subscript h doc (str "messages") = Ok (VRef lm) →
  h !! lm = Some (OList recs) →
  mapM (record_class h) recs = Some clss →
  ∃ s h' ms,
    ChatExport.new doc h = (Ok (VRef s), h') ∧
    kept h h' ∧
    ChatExport.messages h' (VRef s) = Ok (VRef lm) ∧
    h' !! lm = Some (OList (VRef <$> ms)) ∧
    length ms = length recs ∧
    NoDup ms ∧
    (∀ i rec, recs !! i = Some rec →
       ∃ m cls, ms !! i = Some m ∧ clss !! i = Some cls ∧
         h !! m = None ∧ h' !! m = Some (OMessage cls rec)).
Proof.
  intros Hdoc Hlm Hcls.
  destruct (ChatExport_new_convert h doc lm recs Hdoc Hlm)
    as (Hk0 & Hs & Hlm0 & Hms0 & Hnew).
  set (s := fresh (dom h)) in *. set (h0 := <[s := OChatExport doc]> h) in *.
  destruct (convert_prefix (VRef s) lm recs [] 0 h0 [] clss)
    as (h' & ms & Hrun & Hk' & Hlm' & Hms & Hlen & Hfresh & Hnodup & Hrest);
    [done|by rewrite app_nil_r|done|by eapply kept_record_classes|].
  rewrite app_nil_r in Hrun. rewrite Hrun in Hnew. simpl in Hnew, Hlm'.
  rewrite app_nil_r in Hlm'.
  exists s, h', ms. split_and!; try done.
  - eauto using kept_trans.
  - eauto using kept_messages.
  - apply (converted_lookup h h' recs clss ms); try done.
    + symmetry. by eapply length_mapM.
    + eapply Forall_impl; [exact Hfresh|]. simpl. eauto using kept_None.
Qed.

(** A load that meets, after convertible records, a record on which the
    factory raises without touching the store: the error is that of the
    factory; the list holds new messages on the records before, then that
    record and the ones after it; no object but the list and the converted
    records has changed. *)
Lemma ChatExport_new_abort h doc lm good bad rest clss e :
  subscript h doc (str "messages") = Ok (VRef lm) →
  h !! lm = Some (OList (good ++ bad :: rest)) →
  mapM (record_class h) good = Some clss →
  (∀ h1, kept h h1 → MsgFactory.get_message bad h1 = (Raise e, h1)) →
  ∃ h' ms,
    ChatExport.new doc h = (Raise e, h') ∧
    kept h h' ∧
    h' !! lm = Some (OList ((VRef <$> ms) ++ bad :: rest)) ∧
    length ms = length good ∧
    (∀ i rec, good !! i = Some rec →
       ∃ m cls, ms !! i = Some m ∧ clss !! i = Some cls ∧
         h !! m = None ∧ h' !! m = Some (OMessage cls rec)) ∧
    NoDup ms ∧
    (∀ l, is_Some (h !! l) → l ≠ lm → VRef l ∉ good → h' !! l = h !! l).
Proof.
  intros Hdoc Hlm Hcls Hbad.
  destruct (ChatExport_new_convert h doc lm _ Hdoc Hlm)
    as (Hk0 & Hs & Hlm0 & Hms0 & Hnew).
  set (s := fresh (dom h)) in *. set (h0 := <[s := OChatExport doc]> h) in *.
  destruct (convert_prefix (VRef s) lm good (bad :: rest) 0 h0 [] clss)
    as (h' & ms & Hrun & Hk' & Hlm' & Hms & Hlen & Hfresh & Hnodup & Hrest);
    [done|done|done|by eapply kept_record_classes|].
  assert (Hfail : ChatExport.convert (VRef s) (0 + length good) (bad :: rest) h' =
                  (Raise e, h')).
  { simpl. erewrite bind_raise; [done|]. apply Hbad. eauto using kept_trans. }
  rewrite Hrun, Hfail in Hnew.
  exists h', ms. split_and!; try done.
  - eauto using kept_trans.
  - apply (converted_lookup h h' good clss ms); try done.
    + symmetry. by eapply length_mapM.
    + eapply Forall_impl; [exact Hfresh|]. simpl. eauto using kept_None.
  - intros l Hl Hne Hnin.
    assert (Hl0 : h0 !! l = h !! l) by (by apply lookup_alloc).
    rewrite Hrest, Hl0; [done| |done|done]. by rewrite Hl0.
Qed.

(** ** The mapping of the specification *)

(** [MAPPING] has the two types of the specification and no other. *)
Lemma MAPPING_spec_variant ty :
  dict_get ty MsgFactory.MAPPING = spec_variant ty.
Proof.
  unfold MsgFactory.MAPPING, spec_variant. cbn [dict_get].
  destruct (decide (ty = str "message")) as [->|Hm].
  - vm_compute. reflexivity.
  - destruct (decide (ty = str "service")) as [->|Hs].
    + vm_compute. reflexivity.
    + rewrite !decide_False by congruence. reflexivity.
Qed.

Lemma record_class_variant h rec :
  record_class h rec = record_variant h rec.
Proof.
  unfold record_class, record_variant.
  repeat case_match; try done. apply MAPPING_spec_variant.
Qed.

Lemma record_classes_variants h recs :
  mapM (record_class h) recs = mapM (record_variant h) recs.
Proof.
  apply mapM_ext, record_class_variant.
Qed.

(** A record whose type string is none of the two is one the factory has
    no class for. *)
Lemma record_type_unhandled h rec ty :
  record_type h rec = Some ty →
  ty ≠ str "message" → ty ≠ str "service" →
  record_unhandled h rec = Some ty.
Proof.
  unfold record_type, record_unhandled. intros H Hm Hs.
  destruct rec as [| | | | |r]; try done.
  destruct (h !! r) as [[d| | | |]|]; try done.
  destruct (dict_get (str "type") d) as [[| | | |ty'|]|]; try done.
  injection H as ->.
  unfold MsgFactory.find, hashable, format.
  rewrite MAPPING_spec_variant. unfold spec_variant.
  by rewrite !decide_False.
Qed.

(** The factory on a record of an unrecognized type, in any store the
    conversions before it have left. *)
Lemma get_message_unrecognized h rec ty :
  record_type h rec = Some ty →
  ty ≠ str "message" → ty ≠ str "service" →
  ∀ h1, kept h h1 →
    MsgFactory.get_message rec h1 =
      (Raise (ValueError (str "Unhandled message type: " ++ ty)), h1).
Proof.
  intros Hty Hm Hs h1 Hk. apply get_message_unhandled.
  eauto using kept_record_unhandled, record_type_unhandled.
Qed.

(** ** The claims on messages and on the load *)

Lemma get_message_variant h r d raw ty cls p key x :
  h !! r = Some (ODict d) →
  dict_get (str "text") d = Some raw →
  dict_get (str "type") d = Some (VStr ty) →
  dict_get ty MsgFactory.MAPPING = Some cls →
  dict_get p (properties_of (OMessage cls (VRef r))) = Some key →
  key ≠ str "text" →
  dict_get key d = Some x →
  ∃ m t h',
    MsgFactory.get_message (VRef r) h = (Ok (VRef m), h') ∧
    h' !! m = Some (OMessage cls (VRef r)) ∧
    getattr h' (VRef m) p = Ok x ∧
    Message.text h' (VRef m) = Ok t ∧
    text_of_raw h' raw t.
Proof.
  intros Hr Hraw Hty Hcls Hp Hkey Hx.
  destruct (Message_new_ok h cls r d raw Hr Hraw)
    as (m & t & h' & Hnew & _ & _ & Hm' & Hr' & Htext & _).
  exists m, (VRef t), h'. split_and!; [|done| | |done].
  - by rewrite (get_message_new h r d ty cls).
  - rewrite (getattr_message h' m cls r _ p key Hm' Hr' Hp).
    by rewrite dict_get_set_ne, Hx.
  - unfold Message.text.
    rewrite (getattr_message h' m cls r _ p_text (str "text") Hm' Hr')
      by apply properties_text.
    by rewrite dict_get_set_eq.
Qed.

(** C4. For a well-formed record the factory returns a [RegularMessage]
    when [type] is ["message"], whose [from_usr] is the record's [from], and
    a [ServiceMessage] when it is ["service"], whose [action] is the
    record's [action]; in both cases the message's [text] is the TextContent
    of the record's raw [text]. *)
Theorem get_message_builds_variant h r d raw :
  h !! r = Some (ODict d) →
  dict_get (str "text") d = Some raw →
  (∀ u,
     dict_get (str "type") d = Some (VStr (str "message")) →
     dict_get (str "from") d = Some u →
     ∃ m t h',
       MsgFactory.get_message (VRef r) h = (Ok (VRef m), h') ∧
       h' !! m = Some (OMessage RegularMessage (VRef r)) ∧
       from_usr h' (VRef m) = Ok u ∧
       Message.text h' (VRef m) = Ok t ∧
       text_of_raw h' raw t) ∧
  (∀ a,
     dict_get (str "type") d = Some (VStr (str "service")) →
     dict_get (str "action") d = Some a →
     ∃ m t h',
       MsgFactory.get_message (VRef r) h = (Ok (VRef m), h') ∧
       h' !! m = Some (OMessage ServiceMessage (VRef r)) ∧
       action h' (VRef m) = Ok a ∧
       Message.text h' (VRef m) = Ok t ∧
       text_of_raw h' raw t).
Proof.
  intros Hr Hraw. split.
  - intros u Hty Hfrom.
    apply (get_message_variant h r d raw (str "message") RegularMessage
             p_from_usr (str "from") u); done.
  - intros a Hty Haction.
    apply (get_message_variant h r d raw (str "service") ServiceMessage
             p_action (str "action") a); done.
Qed.

Lemma get_message_builds_variant_witness :
  (∃ m t h',
     MsgFactory.get_message (VRef 3%positive) chat_store = (Ok (VRef m), h') ∧
     h' !! m = Some (OMessage RegularMessage (VRef 3%positive)) ∧
     from_usr h' (VRef m) = Ok (VStr (str "A")) ∧
     Message.text h' (VRef m) = Ok t ∧
     text_of_raw h' (VStr (str "hi")) t) ∧
  (∃ m t h',
     MsgFactory.get_message (VRef 4%positive) chat_store = (Ok (VRef m), h') ∧
     h' !! m = Some (OMessage ServiceMessage (VRef 4%positive)) ∧
     action h' (VRef m) = Ok (VStr (str "invite_members")) ∧
     Message.text h' (VRef m) = Ok t ∧
     text_of_raw h' (VStr (str "")) t).
Proof.
  split.
  - apply (proj1 (get_message_builds_variant chat_store 3%positive record_hi
                    (VStr (str "hi")) eq_refl eq_refl)).
    + vm_compute. reflexivity.
    + vm_compute. reflexivity.
  - apply (proj2 (get_message_builds_variant chat_store 4%positive record_invite
                    (VStr (str "")) eq_refl eq_refl)).
    + vm_compute. reflexivity.
    + vm_compute. reflexivity.
Defined.

(** C5. For a record whose type string is neither ["message"] nor
    ["service"] the factory raises the error for an unhandled message type,
    [ValueError] in the source, whose message carries that type string, and
    leaves the store as it was; constructing the [ChatExport] of a document
    in which such a record follows well-formed ones raises that same
    error: the load of the whole document fails. *)
Theorem unhandled_type_aborts_load h :
  (∀ rec ty,
     record_type h rec = Some ty →
     ty ≠ str "message" →
     ty ≠ str "service" →
     MsgFactory.get_message rec h =
       (Raise (ValueError (str "Unhandled message type: " ++ ty)), h)) ∧
  (∀ doc lm good bad rest clss ty,
     subscript h doc (str "messages") = Ok (VRef lm) →
     h !! lm = Some (OList (good ++ bad :: rest)) →
     mapM (record_variant h) good = Some clss →
     record_type h bad = Some ty →
     ty ≠ str "message" →
     ty ≠ str "service" →
     ∃ h',
       ChatExport.new doc h =
         (Raise (ValueError (str "Unhandled message type: " ++ ty)), h')).
Proof.
  split.
  - intros rec ty Hty Hm Hs.
    apply (get_message_unrecognized h rec ty Hty Hm Hs h), kept_refl.
  - intros doc lm good bad rest clss ty Hdoc Hlm Hgood Hty Hm Hs.
    rewrite <- record_classes_variants in Hgood.
    destruct (ChatExport_new_abort h doc lm good bad rest clss
                (ValueError (str "Unhandled message type: " ++ ty)))
      as (h' & ms & Hnew & _); try done.
    + by apply get_message_unrecognized.
    + by exists h'.
Qed.

Lemma unhandled_type_aborts_load_witness :
  MsgFactory.get_message (VRef 4%positive) poll_store =
    (Raise (ValueError (str "Unhandled message type: poll")), poll_store) ∧
  (∃ h', ChatExport.new (VRef 1%positive) poll_store =
           (Raise (ValueError (str "Unhandled message type: poll")), h')).
Proof.
  split.
  - apply (proj1 (unhandled_type_aborts_load poll_store) (VRef 4%positive)
             (str "poll")).
    + vm_compute. reflexivity.
    + vm_compute. discriminate.
    + vm_compute. discriminate.
  - apply (proj2 (unhandled_type_aborts_load poll_store) (VRef 1%positive)
             2%positive [VRef 3%positive] (VRef 4%positive) [VRef 5%positive]
             [RegularMessage] (str "poll")).
    + vm_compute. reflexivity.
    + vm_compute. reflexivity.
    + vm_compute. reflexivity.
    + vm_compute. reflexivity.
    + vm_compute. discriminate.
    + vm_compute. discriminate.
Defined.

(** C6 (as amended). Constructing the [ChatExport] of a document in which a
    record of an unrecognized type string follows well-formed ones raises
    the error for that unhandled type and returns no [ChatExport]; the
    document still has its [messages] list, which then holds, in the slots
    of the records before that record, new messages, all different, each
    wrapping the record of its slot with the variant of its type, and then
    that record and the ones after it; and no object of the store but that
    list and the records before the unrecognized one has changed, so the
    unrecognized record and the ones after it are still the raw records. *)
Theorem failed_load_keeps_converted_prefix h doc lm good bad rest clss ty :
  subscript h doc (str "messages") = Ok (VRef lm) →
  h !! lm = Some (OList (good ++ bad :: rest)) →
  mapM (record_variant h) good = Some clss →
  record_type h bad = Some ty →
  ty ≠ str "message" →
  ty ≠ str "service" →
  ∃ h' ms,
    ChatExport.new doc h =
      (Raise (ValueError (str "Unhandled message type: " ++ ty)), h') ∧
    subscript h' doc (str "messages") = Ok (VRef lm) ∧
    h' !! lm = Some (OList ((VRef <$> ms) ++ bad :: rest)) ∧
    length ms = length good ∧
    NoDup ms ∧
    (∀ i rec, good !! i = Some rec →
       ∃ m cls, ms !! i = Some m ∧ clss !! i = Some cls ∧
         h !! m = None ∧ h' !! m = Some (OMessage cls rec)) ∧
    (∀ l, is_Some (h !! l) → l ≠ lm → VRef l ∉ good → h' !! l = h !! l).
Proof.
  intros Hdoc Hlm Hgood Hty Hm Hs.
  rewrite <- record_classes_variants in Hgood.
  destruct (ChatExport_new_abort h doc lm good bad rest clss
              (ValueError (str "Unhandled message type: " ++ ty)))
    as (h' & ms & Hnew & Hk & Hlm' & Hlen & Hms & Hnodup & Hrest); try done.
  { by apply get_message_unrecognized. }
  exists h', ms. split_and!; try done.
  eapply kept_subscript; eauto using str_messages_ne_text.
Qed.

Lemma failed_load_keeps_converted_prefix_witness :
  ∃ h' ms,
    ChatExport.new (VRef 1%positive) poll_store =
      (Raise (ValueError (str "Unhandled message type: " ++ str "poll")), h') ∧
    subscript h' (VRef 1%positive) (str "messages") = Ok (VRef 2%positive) ∧
    h' !! 2%positive =
      Some (OList ((VRef <$> ms) ++ [VRef 4%positive; VRef 5%positive])) ∧
    length ms = 1 ∧
    NoDup ms ∧
    (∀ i rec, [VRef 3%positive] !! i = Some rec →
       ∃ m cls, ms !! i = Some m ∧ [RegularMessage] !! i = Some cls ∧
         poll_store !! m = None ∧ h' !! m = Some (OMessage cls rec)) ∧
    (∀ l, is_Some (poll_store !! l) → l ≠ 2%positive →
       VRef l ∉ [VRef 3%positive] → h' !! l = poll_store !! l).
Proof.
  apply (failed_load_keeps_converted_prefix poll_store (VRef 1%positive)
           2%positive [VRef 3%positive] (VRef 4%positive) [VRef 5%positive]
           [RegularMessage] (str "poll")).
  - vm_compute. reflexivity.
  - vm_compute. reflexivity.
  - vm_compute. reflexivity.
  - vm_compute. reflexivity.
  - vm_compute. discriminate.
  - vm_compute. discriminate.
Defined.

(** The load of the document with the poll: it raises, and the list that
    held the records 3, 4 and 5 holds a message on record 3, then the
    records 4 and 5; the text of record 3 is a [Text] instance. *)
Example failed_load_of_poll :
  ∃ h',
    ChatExport.new (VRef 1%positive) poll_store =
      (Raise (ValueError (str "Unhandled message type: poll")), h') ∧
    poll_store !! 2%positive =
      Some (OList [VRef 3%positive; VRef 4%positive; VRef 5%positive]) ∧
    h' !! 2%positive =
      Some (OList [VRef 7%positive; VRef 4%positive; VRef 5%positive]) ∧
    h' !! 7%positive = Some (OMessage RegularMessage (VRef 3%positive)) ∧
    subscript h' (VRef 3%positive) (str "text") = Ok (VRef 9%positive) ∧
    h' !! 9%positive = Some (OText (VRef 8%positive)) ∧
    h' !! 4%positive = Some (ODict record_poll).
Proof. eexists. split_and!; by vm_compute. Qed.

(** C6 as stated fails: after the failed load of the document with the poll
    the [messages] list of the document is not what it was, its first slot
    holds a message. *)
Lemma failed_load_changes_messages_list :
  ¬ (∀ h doc lm recs bad ty,
       subscript h doc (str "messages") = Ok (VRef lm) →
       h !! lm = Some (OList recs) →
       bad ∈ recs →
       record_type h bad = Some ty →
       ty ≠ str "message" →
       ty ≠ str "service" →
       ∃ e h',
         ChatExport.new doc h = (Raise e, h') ∧
         h' !! lm = Some (OList recs)).
Proof.
  intros H.
  destruct (H poll_store (VRef 1%positive) 2%positive
              [VRef 3%positive; VRef 4%positive; VRef 5%positive]
              (VRef 4%positive) (str "poll"))
    as (e & h' & Hnew & Hlm).
  - vm_compute. reflexivity.
  - vm_compute. reflexivity.
  - set_solver.
  - vm_compute. reflexivity.
  - vm_compute. discriminate.
  - vm_compute. discriminate.
  - assert (Hslot : (ChatExport.new (VRef 1%positive) poll_store).2 !! 2%positive =
                    Some (OList [VRef 7%positive; VRef 4%positive; VRef 5%positive]))
      by (vm_compute; reflexivity).
    rewrite Hnew in Hslot. simpl in Hslot. rewrite Hlm in Hslot.
    discriminate Hslot.
Qed.

(** C7. For a document of N records of valid types (each with a [text]),
    the constructed [ChatExport] has as its [messages] the document's list,
    which then holds exactly N messages, all different objects and new, the
    one in slot [i] wrapping the record that was in slot [i]: one message
    per record, in the order of the records. *)
Theorem ChatExport_messages_one_per_record h doc lm recs clss :
  subscript h doc (str "messages") = Ok (VRef lm) →
  h !! lm = Some (OList recs) →
  mapM (record_class h) recs = Some clss →
  ∃ chat h' ms,
    ChatExport.new doc h = (Ok chat, h') ∧
    ChatExport.messages h' chat = Ok (VRef lm) ∧
    h' !! lm = Some (OList (VRef <$> ms)) ∧
    length ms = length recs ∧
    NoDup ms ∧
    (∀ i rec, recs !! i = Some rec →
       ∃ m cls, ms !! i = Some m ∧ clss !! i = Some cls ∧
         h !! m = None ∧ h' !! m = Some (OMessage cls rec)).
Proof.
  intros Hdoc Hlm Hcls.
  destruct (ChatExport_new_ok h doc lm recs clss Hdoc Hlm Hcls)
    as (s & h' & ms & Hnew & _ & Hmsgs & Hlm' & Hlen & Hnodup & Hms).
  by exists (VRef s), h', ms.
Qed.

Lemma ChatExport_messages_one_per_record_witness :
  ∃ chat h' ms,
    ChatExport.new (VRef 1%positive) chat_store = (Ok chat, h') ∧
    ChatExport.messages h' chat = Ok (VRef 2%positive) ∧
    h' !! 2%positive = Some (OList (VRef <$> ms)) ∧
    length ms = 3 ∧
    NoDup ms ∧
    (∀ i rec, [VRef 3%positive; VRef 4%positive; VRef 5%positive] !! i = Some rec →
       ∃ m cls, ms !! i = Some m ∧
         [RegularMessage; ServiceMessage; RegularMessage] !! i = Some cls ∧
         chat_store !! m = None ∧ h' !! m = Some (OMessage cls rec)).
Proof.
  apply (ChatExport_messages_one_per_record chat_store (VRef 1%positive)
           2%positive [VRef 3%positive; VRef 4%positive; VRef 5%positive]
           [RegularMessage; ServiceMessage; RegularMessage]).
  - vm_compute. reflexivity.
  - vm_compute. reflexivity.
  - vm_compute. reflexivity.
Defined.

(** C8. Constructing a message from a record that has a [text] rewrites the
    record in place: the message keeps the record itself, the record's
    [text] becomes the TextContent of the raw text, every other entry of the
    record and the order of its keys stay, and no other object that was in
    the store changes. *)
Theorem Message_replaces_only_text h cls r d raw :
  h !! r = Some (ODict d) →
  dict_get (str "text") d = Some raw →
  ∃ m t h' d',
    Message.new cls (VRef r) h = (Ok (VRef m), h') ∧
    JsonObject._inner h' (VRef m) = Ok (VRef r) ∧
    h' !! r = Some (ODict d') ∧
    dict_get (str "text") d' = Some t ∧
    text_of_raw h' raw t ∧
    (∀ k, k ≠ str "text" → dict_get k d' = dict_get k d) ∧
    d'.*1 = d.*1 ∧
    (∀ l, is_Some (h !! l) → l ≠ r → h' !! l = h !! l).
Proof.
  intros Hr Hraw.
  destruct (Message_new_ok h cls r d raw Hr Hraw)
    as (m & t & h' & Hnew & _ & _ & Hm' & Hr' & Htext & Hframe).
  exists m, (VRef t), h', (dict_set (str "text") (VRef t) d).
  split_and!; try done.
  - unfold JsonObject._inner. by rewrite Hm'.
  - apply dict_get_set_eq.
  - intros k Hk. by apply dict_get_set_ne.
  - apply dict_set_keys. by rewrite Hraw.
Qed.

Lemma Message_replaces_only_text_witness :
  ∃ m t h' d',
    Message.new RegularMessage (VRef 3%positive) chat_store = (Ok (VRef m), h') ∧
    JsonObject._inner h' (VRef m) = Ok (VRef 3%positive) ∧
    h' !! 3%positive = Some (ODict d') ∧
    dict_get (str "text") d' = Some t ∧
    text_of_raw h' (VStr (str "hi")) t ∧
    (∀ k, k ≠ str "text" → dict_get k d' = dict_get k record_hi) ∧
    d'.*1 = record_hi.*1 ∧
    (∀ l, is_Some (chat_store !! l) → l ≠ 3%positive →
       h' !! l = chat_store !! l).
Proof.
  apply (Message_replaces_only_text chat_store RegularMessage 3%positive
           record_hi (VStr (str "hi"))).
  - vm_compute. reflexivity.
  - vm_compute. reflexivity.
Defined.

(** C9. Reading [from_usr] on a service message, or [action] on a regular
    message, raises [AttributeError]: no default value is returned. *)
Theorem wrong_variant_accessor_raises h m inner :
  (h !! m = Some (OMessage ServiceMessage inner) →
     from_usr h (VRef m) = Raise AttributeError) ∧
  (h !! m = Some (OMessage RegularMessage inner) →
     action h (VRef m) = Raise AttributeError).
Proof.
  split; intros Hm; unfold from_usr, action, getattr; by rewrite Hm.
Qed.

Lemma wrong_variant_accessor_raises_witness :
  from_usr loaded_store (VRef 12%positive) = Raise AttributeError ∧
  action loaded_store (VRef 9%positive) = Raise AttributeError.
Proof.
  split.
  - apply (proj1 (wrong_variant_accessor_raises loaded_store 12%positive
                    (VRef 4%positive))).
    vm_compute. reflexivity.
  - apply (proj2 (wrong_variant_accessor_raises loaded_store 9%positive
                    (VRef 3%positive))).
    vm_compute. reflexivity.
Defined.

(** ** More on [JsonObject] and the accessors *)

(** X1. [set] then [get] on the same key gives the value stored; the other
    keys read as before and no other object changes. *)
Theorem JsonObject_set_then_get h self r d key v :
  JsonObject._inner h self = Ok (VRef r) →
  h !! r = Some (ODict d) →
  ∃ h',
    JsonObject.set self key v h = (Ok (), h') ∧
    JsonObject.get h' self key = Ok v ∧
    (∀ k, k ≠ key → JsonObject.get h' self k = JsonObject.get h self k) ∧
    (∀ l, l ≠ r → h' !! l = h !! l).
Proof.
  intros Hinner Hr.
  set (h' := <[r := ODict (dict_set key v d)]> h).
  assert (Hinner' : JsonObject._inner h' self = Ok (VRef r)).
  { unfold JsonObject._inner in *. destruct self as [| | | | |s]; try done.
    destruct (decide (s = r)) as [->|Hne].
    - by rewrite Hr in Hinner.
    - unfold h'. by rewrite lookup_insert_ne. }
  exists h'. split_and!.
  - unfold JsonObject.set.
    erewrite bind_ok by (by apply lift_ok).
    unfold store_subscript. by rewrite Hr.
  - unfold JsonObject.get. rewrite Hinner'. csimpl.
    unfold subscript, h'. by rewrite lookup_insert_eq, dict_get_set_eq.
  - intros k Hk. unfold JsonObject.get. rewrite Hinner', Hinner. csimpl.
    unfold subscript, h'. by rewrite lookup_insert_eq, Hr, dict_get_set_ne.
  - intros l Hl. unfold h'. by rewrite lookup_insert_ne.
Qed.

Lemma JsonObject_set_then_get_witness :
  ∃ h',
    JsonObject.set (VRef 9%positive) (str "id") (VInt 5) loaded_store = (Ok (), h') ∧
    JsonObject.get h' (VRef 9%positive) (str "id") = Ok (VInt 5) ∧
    (∀ k, k ≠ str "id" →
       JsonObject.get h' (VRef 9%positive) k =
       JsonObject.get loaded_store (VRef 9%positive) k) ∧
    (∀ l, l ≠ 3%positive → h' !! l = loaded_store !! l).
Proof.
  apply (JsonObject_set_then_get loaded_store (VRef 9%positive) 3%positive
           (dict_set (str "text") (VRef 11%positive) record_hi)
           (str "id") (VInt 5)).
  - vm_compute. reflexivity.
  - vm_compute. reflexivity.
Defined.

(** X2. The factory does not look for the sender or the action: a record
    with a [text] and the type ["message"] but no [from] (or of the type
    ["service"] without [action]) is converted, and the missing entry shows
    only when the accessor is read, as [KeyError] with that key. *)
Theorem missing_variant_field_fails_at_access h r d raw :
  h !! r = Some (ODict d) →
  dict_get (str "text") d = Some raw →
  (dict_get (str "type") d = Some (VStr (str "message")) →
   dict_get (str "from") d = None →
   ∃ m h',
     MsgFactory.get_message (VRef r) h = (Ok (VRef m), h') ∧
     from_usr h' (VRef m) = Raise (KeyError (str "from"))) ∧
  (dict_get (str "type") d = Some (VStr (str "service")) →
   dict_get (str "action") d = None →
   ∃ m h',
     MsgFactory.get_message (VRef r) h = (Ok (VRef m), h') ∧
     action h' (VRef m) = Raise (KeyError (str "action"))).
Proof.
  intros Hr Hraw. split; intros Hty Hnone.
  - destruct (Message_new_ok h RegularMessage r d raw Hr Hraw)
      as (m & t & h' & Hnew & _ & _ & Hm' & Hr' & _ & _).
    exists m, h'. split.
    + by rewrite (get_message_new h r d (str "message") RegularMessage).
    + unfold from_usr.
      rewrite (getattr_message h' m RegularMessage r _ p_from_usr (str "from")
                 Hm' Hr' eq_refl).
      by rewrite dict_get_set_ne, Hnone.
  - destruct (Message_new_ok h ServiceMessage r d raw Hr Hraw)
      as (m & t & h' & Hnew & _ & _ & Hm' & Hr' & _ & _).
    exists m, h'. split.
    + by rewrite (get_message_new h r d (str "service") ServiceMessage).
    + unfold action.
      rewrite (getattr_message h' m ServiceMessage r _ p_action (str "action")
                 Hm' Hr' eq_refl).
      by rewrite dict_get_set_ne, Hnone.
Qed.

Lemma missing_variant_field_fails_at_access_witness :
  (∃ m h',
     MsgFactory.get_message (VRef 1%positive) anonymous_store = (Ok (VRef m), h') ∧
     from_usr h' (VRef m) = Raise (KeyError (str "from"))) ∧
  (∃ m h',
     MsgFactory.get_message (VRef 2%positive) anonymous_store = (Ok (VRef m), h') ∧
     action h' (VRef m) = Raise (KeyError (str "action"))).
Proof.
  split.
  - apply (proj1 (missing_variant_field_fails_at_access anonymous_store
                    1%positive record_no_sender (VStr (str "x"))
                    eq_refl eq_refl)).
    + vm_compute. reflexivity.
    + vm_compute. reflexivity.
  - apply (proj2 (missing_variant_field_fails_at_access anonymous_store
                    2%positive record_no_action (VStr (str "y"))
                    eq_refl eq_refl)).
    + vm_compute. reflexivity.
    + vm_compute. reflexivity.
Defined.

(** ** More on the load *)

Lemma kept_chat h h' s i :
  kept h h' → h !! s = Some (OChatExport i) → h' !! s = Some (OChatExport i).
Proof.
  intros Hk Hs. destruct (Hk _ _ Hs) as (o' & Hs' & Ho).
  simpl in Ho. by subst o'.
Qed.

(** A load of convertible records, with the instance it returns. *)
Lemma ChatExport_new_loaded h doc lm recs clss :
  subscript h doc (str "messages") = Ok (VRef lm) →
  h !! lm = Some (OList recs) →
  mapM (record_class h) recs = Some clss →
  ∃ s h' ms,
    ChatExport.new doc h = (Ok (VRef s), h') ∧
    h !! s = None ∧
    h' !! s = Some (OChatExport doc) ∧
    kept h h' ∧
    h' !! lm = Some (OList (VRef <$> ms)) ∧
    length ms = length recs ∧
    (∀ i rec, recs !! i = Some rec →
       ∃ m cls, ms !! i = Some m ∧ clss !! i = Some cls ∧
         h !! m = None ∧ h' !! m = Some (OMessage cls rec)).
Proof.
  intros Hdoc Hlm Hcls.
  destruct (ChatExport_new_convert h doc lm recs Hdoc Hlm)
    as (Hk0 & Hs & Hlm0 & Hms0 & Hnew).
  set (s := fresh (dom h)) in *. set (h0 := <[s := OChatExport doc]> h) in *.
  destruct (convert_prefix (VRef s) lm recs [] 0 h0 [] clss)
    as (h' & ms & Hrun & Hk' & Hlm' & Hms & Hlen & Hfresh & Hnodup & Hrest);
    [done|by rewrite app_nil_r|done|by eapply kept_record_classes|].
  rewrite app_nil_r in Hrun. rewrite Hrun in Hnew. simpl in Hnew, Hlm'.
  rewrite app_nil_r in Hlm'.
  exists s, h', ms. split_and!; try done.
  - eapply kept_chat; [exact Hk'|]. unfold h0. by rewrite lookup_insert_eq.
  - eauto using kept_trans.
  - apply (converted_lookup h h' recs clss ms); try done.
    + symmetry. by eapply length_mapM.
    + eapply Forall_impl; [exact Hfresh|]. simpl. eauto using kept_None.
Qed.

Lemma common_property cls i p key :
  dict_get p Message_properties = Some key →
  dict_get p (properties_of (OMessage cls i)) = Some key.
Proof. by destruct p, cls. Qed.

(** X3. After a load, the common accessors of the message in slot [i]
    ([id], [type], [date], [date_unixtime]) return what the record in slot
    [i] held under that key before the load, and raise [KeyError] with the
    key if it held nothing. *)
Theorem loaded_message_reads_record h doc lm recs clss :
  subscript h doc (str "messages") = Ok (VRef lm) →
  h !! lm = Some (OList recs) →
  mapM (record_class h) recs = Some clss →
  ∃ chat h' ms,
    ChatExport.new doc h = (Ok chat, h') ∧
    h' !! lm = Some (OList (VRef <$> ms)) ∧
    (∀ i r d m p key,
       recs !! i = Some (VRef r) →
       h !! r = Some (ODict d) →
       ms !! i = Some m →
       dict_get p Message_properties = Some key →
       key ≠ str "text" →
       getattr h' (VRef m) p =
         match dict_get key d with
         | Some x => Ok x
         | None => Raise (KeyError key)
         end).
Proof.
  intros Hdoc Hlm Hcls.
  destruct (ChatExport_new_loaded h doc lm recs clss Hdoc Hlm Hcls)
    as (s & h' & ms & Hnew & _ & _ & Hk & Hlm' & Hlen & Hms).
  exists (VRef s), h', ms. split_and!; try done.
  intros i r d m p key Hi Hr Hm Hp Hkey.
  destruct (Hms i _ Hi) as (m' & cls & Hm' & _ & _ & Hobj).
  assert (m' = m) by congruence. subst m'.
  destruct (kept_dict _ _ _ _ Hk Hr) as (d' & Hr' & Hd' & _).
  rewrite (getattr_message h' m cls r d' p key Hobj Hr')
    by auto using common_property.
  by rewrite Hd'.
Qed.

Lemma loaded_message_reads_record_witness :
  ∃ chat h' ms,
    ChatExport.new (VRef 1%positive) chat_store = (Ok chat, h') ∧
    h' !! 2%positive = Some (OList (VRef <$> ms)) ∧
    (∀ i r d m p key,
       [VRef 3%positive; VRef 4%positive; VRef 5%positive] !! i = Some (VRef r) →
       chat_store !! r = Some (ODict d) →
       ms !! i = Some m →
       dict_get p Message_properties = Some key →
       key ≠ str "text" →
       getattr h' (VRef m) p =
         match dict_get key d with
         | Some x => Ok x
         | None => Raise (KeyError key)
         end).
Proof.
  apply (loaded_message_reads_record chat_store (VRef 1%positive) 2%positive
           [VRef 3%positive; VRef 4%positive; VRef 5%positive]
           [RegularMessage; ServiceMessage; RegularMessage]).
  - vm_compute. reflexivity.
  - vm_compute. reflexivity.
  - vm_compute. reflexivity.
Defined.

Lemma str_name_ne_text : str "name" ≠ str "text".
Proof. vm_compute. discriminate. Qed.

Lemma str_id_ne_text : str "id" ≠ str "text".
Proof. vm_compute. discriminate. Qed.

(** X4. The [ChatExport] a load returns reads [name] and [id] from the
    document: what the document held under these keys before the load. *)
Theorem loaded_chat_reads_document h doc lm recs clss :
  subscript h doc (str "messages") = Ok (VRef lm) →
  h !! lm = Some (OList recs) →
  mapM (record_class h) recs = Some clss →
  ∃ chat h',
    ChatExport.new doc h = (Ok chat, h') ∧
    (∀ x, subscript h doc (str "name") = Ok x → ChatExport.name h' chat = Ok x) ∧
    (∀ x, subscript h doc (str "id") = Ok x → ChatExport.id h' chat = Ok x).
Proof.
  intros Hdoc Hlm Hcls.
  destruct (ChatExport_new_loaded h doc lm recs clss Hdoc Hlm Hcls)
    as (s & h' & ms & Hnew & _ & Hs' & Hk & _).
  exists (VRef s), h'. split_and!; [done| |].
  - intros x Hx. unfold ChatExport.name, getattr. rewrite Hs'. simpl.
    unfold JsonObject.get, JsonObject._inner. rewrite Hs'. csimpl.
    eapply kept_subscript; eauto using str_name_ne_text.
  - intros x Hx. unfold ChatExport.id, getattr. rewrite Hs'. simpl.
    unfold JsonObject.get, JsonObject._inner. rewrite Hs'. csimpl.
    eapply kept_subscript; eauto using str_id_ne_text.
Qed.

Lemma loaded_chat_reads_document_witness :
  ∃ chat h',
    ChatExport.new (VRef 1%positive) chat_store = (Ok chat, h') ∧
    ChatExport.name h' chat = Ok (VStr (str "chat")) ∧
    ChatExport.id h' chat = Ok (VInt 7).
Proof.
  destruct (loaded_chat_reads_document chat_store (VRef 1%positive) 2%positive
              [VRef 3%positive; VRef 4%positive; VRef 5%positive]
              [RegularMessage; ServiceMessage; RegularMessage])
    as (chat & h' & Hnew & Hname & Hid).
  - vm_compute. reflexivity.
  - vm_compute. reflexivity.
  - vm_compute. reflexivity.
  - exists chat, h'. split_and!; [exact Hnew| |].
    + apply Hname. vm_compute. reflexivity.
    + apply Hid. vm_compute. reflexivity.
Defined.

(** X5. When the document has no [messages] (or is no dict), or its
    [messages] cannot be iterated, the load raises that error before it
    looks at any record: the store only gains the instance that is not
    returned. *)
Theorem load_without_messages_raises h doc e :
  (subscript h doc (str "messages") = Raise e ∨
   ∃ v, subscript h doc (str "messages") = Ok v ∧ iter h v = Raise e) →
  ChatExport.new doc h = (Raise e, <[fresh (dom h) := OChatExport doc]> h).
Proof.
  intros Hcase.
  set (s := fresh (dom h)). set (h0 := <[s := OChatExport doc]> h).
  assert (Hs : h !! s = None) by apply fresh_not_allocated.
  assert (Hsub : subscript h0 doc (str "messages") = subscript h doc (str "messages")).
  { unfold subscript. destruct doc as [| | | | |l]; try done.
    destruct (decide (l = s)) as [->|Hne].
    - exfalso. destruct Hcase as [H|(v & H & _)];
        unfold subscript in H; by rewrite Hs in H.
    - unfold h0. by rewrite lookup_insert_ne. }
  assert (Hmsgs : ChatExport.messages h0 (VRef s) = subscript h doc (str "messages")).
  { unfold ChatExport.messages, getattr, h0. rewrite lookup_insert_eq. simpl.
    unfold JsonObject.get, JsonObject._inner. rewrite lookup_insert_eq. csimpl.
    exact Hsub. }
  unfold ChatExport.new.
  rewrite (bind_ok _ _ h s h0) by reflexivity.
  unfold ChatExport.post_init, mbind at 1, M_bind at 1.
  destruct Hcase as [H|(v & H & Hiter)].
  - erewrite bind_raise; [done|]. unfold lift. by rewrite Hmsgs, H.
  - erewrite bind_ok by (apply lift_ok; by rewrite Hmsgs, H).
    erewrite bind_raise; [done|]. unfold lift. f_equal.
    rewrite <- Hiter. unfold iter. destruct v as [| | | | |l]; try done.
    destruct (decide (l = s)) as [->|Hne].
    + unfold iter in Hiter. by rewrite Hs in Hiter.
    + unfold h0. by rewrite lookup_insert_ne.
Qed.

Lemma load_without_messages_raises_witness :
  ChatExport.new (VRef 1%positive) headless_store =
    (Raise (KeyError (str "messages")),
     <[fresh (dom headless_store) := OChatExport (VRef 1%positive)]> headless_store) ∧
  ChatExport.new (VStr (str "chat")) headless_store =
    (Raise TypeError,
     <[fresh (dom headless_store) := OChatExport (VStr (str "chat"))]> headless_store) ∧
  ChatExport.new (VRef 2%positive) headless_store =
    (Raise TypeError,
     <[fresh (dom headless_store) := OChatExport (VRef 2%positive)]> headless_store).
Proof.
  split_and!.
  - apply (load_without_messages_raises headless_store (VRef 1%positive)).
    left. vm_compute. reflexivity.
  - apply (load_without_messages_raises headless_store (VStr (str "chat"))).
    left. vm_compute. reflexivity.
  - apply (load_without_messages_raises headless_store (VRef 2%positive)).
    right. exists (VInt 3). split; vm_compute; reflexivity.
Defined.

Lemma get_message_untyped h rec e :
  record_untyped h rec = Some e →
  MsgFactory.get_message rec h = (Raise e, h).
Proof.
  unfold record_untyped. intros H.
  destruct (subscript h rec (str "type")) as [x|e'|] eqn:Hsub; try done.
  injection H as ->.
  unfold MsgFactory.get_message. erewrite bind_raise; [done|].
  unfold lift. by rewrite Hsub.
Qed.

Lemma kept_record_untyped h h' rec e :
  kept h h' → record_untyped h rec = Some e → record_untyped h' rec = Some e.
Proof.
  intros Hk. unfold record_untyped, subscript.
  destruct rec as [| | | | |l]; try done.
  destruct (h !! l) as [o|] eqn:Hl; [|done].
  destruct (Hk _ _ Hl) as (o' & -> & Ho).
  destruct o as [d| | | |]; destruct o' as [d'| | | |]; simpl in Ho; try done.
  destruct Ho as [Hd' _]. by rewrite Hd' by apply str_type_ne_text.
Qed.

(** X6. A record that is no dict, or a dict without [type], makes the
    factory raise [TypeError], or [KeyError] with ["type"], with the store
    untouched; in a document it aborts the load with that error once the
    records before it are converted: the list then holds, in their slots,
    new messages, all different, each wrapping the record of its slot, and
    then the records from that one on. *)
Theorem untyped_record_aborts_load h :
  (∀ rec e,
     record_untyped h rec = Some e →
     MsgFactory.get_message rec h = (Raise e, h)) ∧
  (∀ doc lm good bad rest clss e,
     subscript h doc (str "messages") = Ok (VRef lm) →
     h !! lm = Some (OList (good ++ bad :: rest)) →
     mapM (record_class h) good = Some clss →
     record_untyped h bad = Some e →
     ∃ h' ms,
       ChatExport.new doc h = (Raise e, h') ∧
       h' !! lm = Some (OList ((VRef <$> ms) ++ bad :: rest)) ∧
       length ms = length good ∧
       NoDup ms ∧
       (∀ i rec, good !! i = Some rec →
          ∃ m cls, ms !! i = Some m ∧ clss !! i = Some cls ∧
            h !! m = None ∧ h' !! m = Some (OMessage cls rec))).
Proof.
  split; [apply get_message_untyped|].
  intros doc lm good bad rest clss e Hdoc Hlm Hgood Hbad.
  destruct (ChatExport_new_abort h doc lm good bad rest clss e)
    as (h' & ms & Hnew & _ & Hlm' & Hlen & Hms & Hnodup & _); try done.
  - intros h1 Hk. eauto using get_message_untyped, kept_record_untyped.
  - by exists h', ms.
Qed.

Lemma untyped_record_aborts_load_witness :
  (∃ h' ms,
     ChatExport.new (VRef 1%positive) ragged_store = (Raise TypeError, h') ∧
     h' !! 2%positive =
       Some (OList ((VRef <$> ms) ++ [VStr (str "oops"); VRef 4%positive])) ∧
     length ms = 1 ∧
     NoDup ms ∧
     (∀ i rec, [VRef 3%positive] !! i = Some rec →
        ∃ m cls, ms !! i = Some m ∧ [RegularMessage] !! i = Some cls ∧
          ragged_store !! m = None ∧ h' !! m = Some (OMessage cls rec))) ∧
  (∃ h' ms,
     ChatExport.new (VRef 5%positive) ragged_store =
       (Raise (KeyError (str "type")), h') ∧
     h' !! 6%positive = Some (OList ((VRef <$> ms) ++ [VRef 4%positive])) ∧
     length ms = 1 ∧
     NoDup ms ∧
     (∀ i rec, [VRef 3%positive] !! i = Some rec →
        ∃ m cls, ms !! i = Some m ∧ [RegularMessage] !! i = Some cls ∧
          ragged_store !! m = None ∧ h' !! m = Some (OMessage cls rec))).
Proof.
  split.
  - apply (proj2 (untyped_record_aborts_load ragged_store) (VRef 1%positive)
             2%positive [VRef 3%positive] (VStr (str "oops")) [VRef 4%positive]
             [RegularMessage] TypeError).
    + vm_compute. reflexivity.
    + vm_compute. reflexivity.
    + vm_compute. reflexivity.
    + vm_compute. reflexivity.
  - apply (proj2 (untyped_record_aborts_load ragged_store) (VRef 5%positive)
             6%positive [VRef 3%positive] (VRef 4%positive) []
             [RegularMessage] (KeyError (str "type"))).
    + vm_compute. reflexivity.
    + vm_compute. reflexivity.
    + vm_compute. reflexivity.
    + vm_compute. reflexivity.
Defined.

(** X7. A record with a type of [MAPPING] but without [text] makes the
    factory raise [KeyError] with ["text"]; the record and every other
    object are as before, the store only gains the message instance that is
    not returned. *)
Theorem record_without_text_raises h r d ty cls :
  h !! r = Some (ODict d) →
  dict_get (str "type") d = Some (VStr ty) →
  dict_get ty MsgFactory.MAPPING = Some cls →
  dict_get (str "text") d = None →
  MsgFactory.get_message (VRef r) h =
    (Raise (KeyError (str "text")),
     <[fresh (dom h) := OMessage cls (VRef r)]> h).
Proof.
  intros Hr Hty Hcls Htext.
  rewrite (get_message_new h r d ty cls Hr Hty Hcls).
  set (m := fresh (dom h)). set (h1 := <[m := OMessage cls (VRef r)]> h).
  assert (Hm : h !! m = None) by apply fresh_not_allocated.
  assert (Hr1 : h1 !! r = Some (ODict d)).
  { unfold h1. rewrite lookup_insert_ne; [done|]. intros E. congruence. }
  unfold Message.new. rewrite (bind_ok _ _ h m h1) by reflexivity.
  erewrite bind_raise; [done|].
  unfold Message.post_init. erewrite bind_raise; [done|].
  unfold lift. f_equal.
  rewrite (getattr_message h1 m cls r d p_text (str "text")).
  - by rewrite Htext.
  - unfold h1. by rewrite lookup_insert_eq.
  - done.
  - apply properties_text.
Qed.

Lemma record_without_text_raises_witness :
  MsgFactory.get_message (VRef 1%positive)
    (<[1%positive := ODict [(str "type", VStr (str "service"))]]> ∅) =
    (Raise (KeyError (str "text")),
     <[fresh (dom (<[1%positive := ODict [(str "type", VStr (str "service"))]]>
                     (∅ : gmap positive obj))) :=
         OMessage ServiceMessage (VRef 1%positive)]>
       (<[1%positive := ODict [(str "type", VStr (str "service"))]]> ∅)).
Proof.
  apply (record_without_text_raises
           (<[1%positive := ODict [(str "type", VStr (str "service"))]]> ∅)
           1%positive [(str "type", VStr (str "service"))] (str "service")
           ServiceMessage).
  - vm_compute. reflexivity.
  - vm_compute. reflexivity.
  - vm_compute. reflexivity.
  - vm_compute. reflexivity.
Defined.

(** X8. A document cannot be loaded twice: after a load of at least one
    record the list of the document holds messages, which the factory
    cannot subscript, so a second load of the same document raises
    [TypeError] and leaves the list as the first load made it. *)
Theorem second_load_raises h doc lm recs clss :
  subscript h doc (str "messages") = Ok (VRef lm) →
  h !! lm = Some (OList recs) →
  mapM (record_class h) recs = Some clss →
  recs ≠ [] →
  ∃ chat h' h'',
    ChatExport.new doc h = (Ok chat, h') ∧
    ChatExport.new doc h' = (Raise TypeError, h'') ∧
    h'' !! lm = h' !! lm.
Proof.
  intros Hdoc Hlm Hcls Hne.
  destruct (ChatExport_new_loaded h doc lm recs clss Hdoc Hlm Hcls)
    as (s & h' & ms & Hnew & _ & _ & Hk & Hlm' & Hlen & Hms).
  destruct recs as [|rec recs]; [done|].
  destruct (Hms 0 rec eq_refl) as (m & cls & Hm & _ & _ & Hobj).
  destruct ms as [|m' ms]; [done|]. injection Hm as ->.
  destruct (ChatExport_new_abort h' doc lm [] (VRef m) (VRef <$> ms) [] TypeError)
    as (h'' & ms' & Hnew' & _ & Hlm'' & Hlen' & _).
  - eapply kept_subscript; eauto using str_messages_ne_text.
  - done.
  - done.
  - intros h1 Hk1. apply get_message_untyped.
    unfold record_untyped, subscript.
    by rewrite (kept_message _ _ _ _ _ Hk1 Hobj).
  - exists (VRef s), h', h''. split_and!; [done|done|].
    destruct ms'; [|done]. by rewrite Hlm'', Hlm'.
Qed.

Lemma second_load_raises_witness :
  ∃ chat h' h'',
    ChatExport.new (VRef 1%positive) chat_store = (Ok chat, h') ∧
    ChatExport.new (VRef 1%positive) h' = (Raise TypeError, h'') ∧
    h'' !! 2%positive = h' !! 2%positive.
Proof.
  apply (second_load_raises chat_store (VRef 1%positive) 2%positive
           [VRef 3%positive; VRef 4%positive; VRef 5%positive]
           [RegularMessage; ServiceMessage; RegularMessage]).
  - vm_compute. reflexivity.
  - vm_compute. reflexivity.
  - vm_compute. reflexivity.
  - discriminate.
Defined.

(** ** More on [Message.Text] *)

Lemma contents_list_inv h self xs :
  contents_list h self = Some xs →
  ∃ t l, self = VRef t ∧ h !! t = Some (OText (VRef l)) ∧
    h !! l = Some (OList xs).
Proof.
  unfold contents_list. intros H.
  destruct self as [| | | | |t]; try done.
  destruct (h !! t) as [[| |[| | | | |l]| |]|] eqn:Ht; try done.
  destruct (h !! l) as [[|xs'| | |]|] eqn:Hl; try done.
  injection H as ->. by exists t, l.
Qed.

Lemma searched_of_text h v ot :
  searched_text h v = Some ot → Text.searched h v = Ok (VStr <$> ot).
Proof.
  unfold searched_text, Text.searched, subscript. intros H.
  destruct v as [| | | |s|l]; try done.
  - by injection H as <-.
  - destruct (h !! l) as [[d| | | |]|]; try done.
    destruct (dict_get (str "text") d) as [[| | | |t|]|]; try done;
      by injection H as <-.
Qed.

Lemma count_loop_texts (lower : list N → list N) h (cs : bool) word0 els ts :
  mapM (searched_text h) els = Some ts →
  (cs = false → lower (lower word0) = lower word0) →
  ∀ word counts,
    (if cs then word = word0 else lower word = lower word0) →
    ∃ counts',
      Text.count_loop lower h els word cs counts = Ok counts' ∧
      sum_list counts' = sum_list counts + counted_texts lower ts word0 cs.
Proof.
  intros H%mapM_Some_1 Hidem. unfold counted_texts.
  induction H as [|v ot els ts Hv _ IH]; intros word counts Hword; csimpl.
  - exists counts. split; [done|lia].
  - rewrite (searched_of_text _ _ _ Hv).
    destruct ot as [t|]; csimpl.
    + destruct cs; csimpl.
      * subst word.
        destruct (IH word0 (counts ++ [str_count t word0]) eq_refl)
          as (counts' & -> & Hsum).
        exists counts'. split; [done|].
        rewrite Hsum, sum_list_with_app. simpl. lia.
      * destruct (IH (lower word) (counts ++ [str_count (lower t) (lower word)]))
          as (counts' & -> & Hsum).
        { rewrite Hword. by apply Hidem. }
        exists counts'. split; [done|].
        rewrite Hsum, sum_list_with_app, Hword. simpl. lia.
    + destruct (IH word counts Hword) as (counts' & -> & Hsum).
      exists counts'. split; [done|]. rewrite Hsum. lia.
Qed.

Lemma count_texts (lower : list N → list N) h self xs ts word (cs : bool) :
  contents_list h self = Some xs →
  mapM (searched_text h) xs = Some ts →
  (cs = false → lower (lower word) = lower word) →
  Text.count lower h self word cs = Ok (counted_texts lower ts word cs).
Proof.
  intros (t & l & -> & Ht & Hl)%contents_list_inv Hts Hidem.
  unfold Text.count, Text.contents, iter. rewrite Ht. csimpl. rewrite Hl. csimpl.
  destruct (count_loop_texts lower h cs word xs ts Hts Hidem word [])
    as (counts' & -> & Hsum); [by destruct cs|].
  csimpl. by rewrite Hsum.
Qed.

(** X9. [count] never reads the [type] of an entity: on a text whose
    elements are strs and dicts whose [text], if any, is a str, it returns
    the sum of what [str.count] finds in the texts, whether or not the dicts
    have a [type], and for the empty word as well. *)
Theorem count_reads_only_text (lower : list N → list N) h self xs ts word
    (case_sensitive : bool) :
  contents_list h self = Some xs →
  mapM (searched_text h) xs = Some ts →
  (case_sensitive = false → lower (lower word) = lower word) →
  Text.count lower h self word case_sensitive =
    Ok (counted_texts lower ts word case_sensitive).
Proof. apply count_texts. Qed.

Lemma count_reads_only_text_witness :
  Text.count lower_latin untagged_store (VRef 1%positive) (str "BE") false = Ok 2.
Proof.
  apply (count_reads_only_text lower_latin untagged_store (VRef 1%positive)
           [VStr (str "to be or"); VRef 3%positive; VRef 4%positive]
           [Some (str "to be or"); None; Some (str " not to be")]
           (str "BE") false).
  - vm_compute. reflexivity.
  - vm_compute. reflexivity.
  - intros _. vm_compute. reflexivity.
Defined.

Lemma repr_loop_app h good els res gs :
  mapM (segment_of h) good = Some gs →
  Text.repr_loop h (good ++ els) res =
    Text.repr_loop h els (res ++ (VStr <$> (spec_render_segment <$> gs))).
Proof.
  intros H%mapM_Some_1. revert res.
  induction H as [|v g good gs Hv _ IH]; intros res; csimpl.
  - by rewrite app_nil_r.
  - rewrite (repr_el_segment _ _ _ Hv). csimpl.
    rewrite IH. by rewrite <- app_assoc.
Qed.

(** X10. [__repr__] needs the [type] of an entity that has no [text]: on a
    text in which, after well-formed segments, comes a dict with neither
    [text] nor [type], it raises [KeyError] with ["type"] and returns no
    string. *)
Theorem repr_without_text_and_type_raises h self good l d rest gs :
  contents_list h self = Some (good ++ VRef l :: rest) →
  mapM (segment_of h) good = Some gs →
  h !! l = Some (ODict d) →
  dict_get (str "text") d = None →
  dict_get (str "type") d = None →
  Text.repr h self = Raise (KeyError (str "type")).
Proof.
  intros (t & lc & -> & Ht & Hlc)%contents_list_inv Hgood Hl Htext Hty.
  unfold Text.repr, Text.contents, iter. rewrite Ht. csimpl. rewrite Hlc. csimpl.
  rewrite (repr_loop_app _ _ _ _ _ Hgood). csimpl.
  unfold Text.repr_el, subscript. by rewrite Hl, Htext, Hty.
Qed.

Lemma repr_without_text_and_type_raises_witness :
  Text.repr untagged_store (VRef 1%positive) = Raise (KeyError (str "type")).
Proof.
  apply (repr_without_text_and_type_raises untagged_store (VRef 1%positive)
           [VStr (str "to be or")] 3%positive
           [(str "href", VStr (str "x.org"))] [VRef 4%positive]
           [Plain (str "to be or")]).
  - vm_compute. reflexivity.
  - vm_compute. reflexivity.
  - vm_compute. reflexivity.
  - vm_compute. reflexivity.
  - vm_compute. reflexivity.
Defined.

Lemma count_scan_bound sub k s :
  count_scan sub k s * length sub + k `min` length s ≤ length s.
Proof.
  revert k. induction s as [|c s IH]; intros k; [simpl; lia|].
  destruct k as [|k].
  - cbn [count_scan]. destruct (starts_with sub (c :: s)) eqn:Hpre.
    + apply starts_with_length in Hpre. simpl in Hpre.
      specialize (IH (length sub - 1)). simpl. lia.
    + specialize (IH 0). simpl in *. lia.
  - cbn [count_scan]. specialize (IH k). simpl. lia.
Qed.

(** The matches [str.count] counts fit into the string side by side. *)
Lemma str_count_bound s sub :
  sub ≠ [] → str_count s sub * length sub ≤ length s.
Proof.
  intros Hsub. destruct sub as [|a sub]; [done|].
  unfold str_count. pose proof (count_scan_bound (a :: sub) 0 s). lia.
Qed.

(** X11. [count] never reports more matches than fit into the texts: for
    a word that is searched as a non-empty string, the count times the
    length of the searched word is at most the total length of the
    searched texts. *)
Theorem count_fits_in_texts (lower : list N → list N) h self xs ts word
    (case_sensitive : bool) :
  contents_list h self = Some xs →
  mapM (searched_text h) xs = Some ts →
  (case_sensitive = false → lower (lower word) = lower word) →
  (if case_sensitive then word else lower word) ≠ [] →
  ∃ n,
    Text.count lower h self word case_sensitive = Ok n ∧
    n * length (if case_sensitive then word else lower word) ≤
      sum_list ((λ ot, match ot with
                       | None => 0
                       | Some t => length (if case_sensitive then t else lower t)
                       end) <$> ts).
Proof.
  intros Hxs Hts Hidem Hne.
  exists (counted_texts lower ts word case_sensitive).
  split; [by eapply count_texts|].
  unfold counted_texts. clear Hts Hxs.
  induction ts as [|ot ts IH]; csimpl; [lia|].
  rewrite Nat.mul_add_distr_r.
  apply Nat.add_le_mono; [|exact IH].
  destruct ot as [t|]; [|lia].
  destruct case_sensitive; by apply str_count_bound.
Qed.

Lemma count_fits_in_texts_witness :
  ∃ n,
    Text.count lower_latin untagged_store (VRef 1%positive) (str "BE") false = Ok n ∧
    n * 2 ≤ 18.
Proof.
  apply (count_fits_in_texts lower_latin untagged_store (VRef 1%positive)
           [VStr (str "to be or"); VRef 3%positive; VRef 4%positive]
           [Some (str "to be or"); None; Some (str " not to be")]
           (str "BE") false).
  - vm_compute. reflexivity.
  - vm_compute. reflexivity.
  - intros _. vm_compute. reflexivity.
  - vm_compute. discriminate.
Defined.

(** ** Counters *)

Section counter_lemmas.

Context `{EqDecision K} {V : Type}.
Implicit Types (k : K) (v : V) (d : list (K * V)).

Lemma dict_get_None k d : dict_get k d = None ↔ k ∉ d.*1.
Proof.
  induction d as [|[k' v'] d IH]; simpl.
  - split; [intros _; apply not_elem_of_nil|done].
  - destruct (decide (k' = k)) as [->|Hne].
    + split; [done|]. intros H. exfalso. apply H. apply list_elem_of_here.
    + rewrite IH, not_elem_of_cons. split; [by split|by intros [_ ?]].
Qed.

Lemma dict_get_app_r k d1 d2 :
  k ∉ d1.*1 → dict_get k (d1 ++ d2) = dict_get k d2.
Proof.
  induction d1 as [|[k' v'] d1 IH]; simpl; [done|].
  intros [Hne Hk]%not_elem_of_cons.
  rewrite decide_False by done. by apply IH.
Qed.

Lemma dict_set_app_r k v d1 d2 :
  k ∉ d1.*1 → dict_set k v (d1 ++ d2) = d1 ++ dict_set k v d2.
Proof.
  induction d1 as [|[k' v'] d1 IH]; simpl; [done|].
  intros [Hne Hk]%not_elem_of_cons.
  rewrite decide_False by done. by rewrite IH.
Qed.

Lemma dict_set_new k v d : dict_get k d = None → dict_set k v d = d ++ [(k, v)].
Proof.
  induction d as [|[k' v'] d IH]; simpl; [done|].
  destruct (decide (k' = k)); [done|]. intros H. by rewrite IH.
Qed.

Lemma dict_get_elem_of k v d : dict_get k d = Some v → (k, v) ∈ d.
Proof.
  induction d as [|[k' v'] d IH]; simpl; [done|].
  destruct (decide (k' = k)) as [->|Hne].
  - intros [= ->]. apply list_elem_of_here.
  - intros H. apply list_elem_of_further. by apply IH.
Qed.

Lemma elem_of_dict_get k v d : NoDup d.*1 → (k, v) ∈ d → dict_get k d = Some v.
Proof.
  induction d as [|[k' v'] d IH]; simpl.
  - intros _ H. by apply elem_of_nil in H.
  - intros [Hk' Hnd]%NoDup_cons [[= -> ->]|Hin]%elem_of_cons.
    + by rewrite decide_True.
    + destruct (decide (k' = k)) as [->|Hne]; [|by apply IH].
      exfalso. apply Hk'. apply list_elem_of_fmap. by exists (k, v).
Qed.

Lemma dict_set_keys_new k v d :
  dict_get k d = None → (dict_set k v d).*1 = d.*1 ++ [k].
Proof. intros H. rewrite dict_set_new by done. by rewrite fmap_app. Qed.

Lemma dict_set_NoDup k v d : NoDup d.*1 → NoDup (dict_set k v d).*1.
Proof.
  intros Hnd. destruct (dict_get k d) as [v'|] eqn:Hk.
  - rewrite dict_set_keys by eauto. done.
  - rewrite dict_set_keys_new by done.
    apply NoDup_app. split_and!; [done| |apply NoDup_singleton].
    intros x Hx [->|H]%elem_of_cons; [|by apply elem_of_nil in H].
    by apply dict_get_None in Hk.
Qed.

End counter_lemmas.

(** ** [sorted] *)

Section sorted_lemmas.

Context {A : Type} (key : A → nat).

Lemma insert_by_Permutation x l : insert_by key x l ≡ₚ x :: l.
Proof.
  induction l as [|y l IH]; simpl; [done|].
  destruct (decide (key x ≤ key y)); [done|].
  rewrite IH. apply Permutation_swap.
Qed.

Lemma sorted_by_Permutation l : sorted_by key l ≡ₚ l.
Proof.
  induction l as [|x l IH]; simpl; [done|].
  by rewrite insert_by_Permutation, IH.
Qed.

Lemma forallb_Permutation (f : A → bool) l1 l2 :
  l1 ≡ₚ l2 → forallb f l1 = forallb f l2.
Proof.
  induction 1 as [|x l1 l2 _ IH|x y l|l1 l2 l3 _ IH1 _ IH2]; simpl.
  - done.
  - by rewrite IH.
  - by destruct (f x), (f y).
  - by rewrite IH1.
Qed.

Lemma insert_by_ascending x l :
  ascending (key <$> l) = true → ascending (key <$> insert_by key x l) = true.
Proof.
  induction l as [|y l IH]; [done|].
  cbn [insert_by]. csimpl.
  intros [Hall Hasc]%andb_prop.
  destruct (decide (key x ≤ key y)) as [Hle|Hgt]; csimpl.
  - rewrite Hall, Hasc. rewrite !andb_true_r.
    apply andb_true_intro. split; [by apply Nat.leb_le|].
    rewrite forallb_forall in *. intros z Hz. specialize (Hall z Hz).
    apply Nat.leb_le in Hall. apply Nat.leb_le. lia.
  - rewrite IH by done. rewrite andb_true_r.
    rewrite forallb_forall. intros z Hz.
    apply list_elem_of_In, list_elem_of_fmap in Hz as (a & -> & Ha).
    rewrite insert_by_Permutation in Ha.
    apply elem_of_cons in Ha as [->|Ha]; [apply Nat.leb_le; lia|].
    rewrite forallb_forall in Hall. apply Hall.
    apply list_elem_of_In, list_elem_of_fmap. by exists a.
Qed.

Lemma sorted_by_ascending l : ascending (key <$> sorted_by key l) = true.
Proof.
  induction l as [|x l IH]; simpl; [done|by apply insert_by_ascending].
Qed.

End sorted_lemmas.

(** ** [msgcount] *)

(** X12. After a load of N convertible records, [msgcount] without
    [--per-user] prints one line, the numeral of N. *)
Theorem msgcount_prints_number_of_records h doc lm recs clss :
  subscript h doc (str "messages") = Ok (VRef lm) →
  h !! lm = Some (OList recs) →
  mapM (record_class h) recs = Some clss →
  ∃ chat h',
    ChatExport.new doc h = (Ok chat, h') ∧
    MsgCount.run false h' chat = ([decimal (length recs)], Ok ()).
Proof.
  intros Hdoc Hlm Hcls.
  destruct (ChatExport_new_ok h doc lm recs clss Hdoc Hlm Hcls)
    as (s & h' & ms & Hnew & _ & Hmsgs & Hlm' & Hlen & _).
  exists (VRef s), h'. split; [done|].
  unfold MsgCount.run. simpl negb. cbv iota. rewrite Hmsgs. csimpl.
  unfold len. rewrite Hlm'. by rewrite length_fmap, Hlen.
Qed.

Lemma msgcount_prints_number_of_records_witness :
  ∃ chat h',
    ChatExport.new (VRef 1%positive) chat_store = (Ok chat, h') ∧
    MsgCount.run false h' chat = ([str "3"], Ok ()).
Proof.
  apply (msgcount_prints_number_of_records chat_store (VRef 1%positive)
           2%positive [VRef 3%positive; VRef 4%positive; VRef 5%positive]
           [RegularMessage; ServiceMessage; RegularMessage]).
  - vm_compute. reflexivity.
  - vm_compute. reflexivity.
  - vm_compute. reflexivity.
Defined.

Section tally_lemmas.

Implicit Types (count : list (hkey * (val * nat))).

(** The count stored under a key, and the sum of all counts. *)
Local Abbreviation cnt k count :=
  (match dict_get k count with Some un => un.2 | None => 0 end).
Local Abbreviation total count := (sum_list ((λ e, e.2.2) <$> count)).

Lemma total_set_existing k u n u' n' count :
  dict_get k count = Some (u, n) →
  total (dict_set k (u', n') count) + n = total count + n'.
Proof.
  induction count as [|[k0 [u0 n0]] count IH]; csimpl; [done|].
  destruct (decide (k0 = k)) as [->|Hne]; csimpl.
  - intros [= -> ->]. lia.
  - intros H. specialize (IH H). lia.
Qed.

Lemma total_set_new k u n count :
  dict_get k count = None → total (dict_set k (u, n) count) = total count + n.
Proof.
  intros H. rewrite dict_set_new by done.
  rewrite fmap_app, sum_list_with_app. simpl. lia.
Qed.

Lemma sender_key_inv h msg s :
  sender_key h msg = Some s →
  match s with
  | Some (k, usr) => from_usr h msg = Ok usr ∧ key_of usr = Ok k
  | None => from_usr h msg = Raise AttributeError
  end.
Proof.
  unfold sender_key. intros H.
  destruct (from_usr h msg) as [usr|[]|]; try done.
  - destruct (key_of usr) as [k| |] eqn:Hk; try done. by injection H as <-.
  - by injection H as <-.
Qed.

(** The loop adds one to the count of the sender of each message that has
    one and passes over the others. *)
Lemma tally_spec h els ss :
  mapM (sender_key h) els = Some ss →
  ∀ count,
    NoDup count.*1 →
    (∀ k u n, dict_get k count = Some (u, n) → key_of u = Ok k ∧ 0 < n) →
    ∃ count',
      MsgCount.tally h els count = Ok count' ∧
      NoDup count'.*1 ∧
      (∀ k u n, dict_get k count' = Some (u, n) → key_of u = Ok k ∧ 0 < n) ∧
      (∀ k, cnt k count' = cnt k count + sent_by k ss) ∧
      total count' = total count + length (omap id ss).
Proof.
  intros H%mapM_Some_1.
  induction H as [|msg s els ss Hs _ IH]; intros count Hnd Hinv.
  - exists count. unfold sent_by. simpl. split_and!; try done; intros; lia.
  - apply sender_key_inv in Hs. destruct s as [[k usr]|].
    + destruct Hs as [Hfrom Hkey].
      set (count1 := match dict_get k count with
                     | Some (u, n) => dict_set k (u, n + 1) count
                     | None => dict_set k (usr, 0 + 1) count
                     end).
      assert (Hstep : (usr' ← from_usr h msg; MsgCount.incr usr' count) = Ok count1).
      { rewrite Hfrom. csimpl. unfold MsgCount.incr. by rewrite Hkey. }
      assert (Hnd1 : NoDup count1.*1).
      { unfold count1. destruct (dict_get k count) as [[u n]|];
          by apply dict_set_NoDup. }
      assert (Hget1 : ∀ k', dict_get k' count1 =
                if decide (k = k')
                then Some (match dict_get k count with
                           | Some (u, n) => (u, n + 1)
                           | None => (usr, 0 + 1)
                           end)
                else dict_get k' count).
      { intros k'. unfold count1.
        destruct (decide (k = k')) as [<-|Hne];
          destruct (dict_get k count) as [[u n]|];
          by rewrite ?dict_get_set_eq, ?dict_get_set_ne. }
      assert (Htot1 : total count1 = total count + 1).
      { unfold count1. destruct (dict_get k count) as [[u n]|] eqn:Hk.
        - pose proof (total_set_existing k u n u (n + 1) count Hk). lia.
        - by rewrite total_set_new. }
      destruct (IH count1 Hnd1) as (count' & Hrun & Hnd' & Hinv' & Hcnt & Htot).
      { intros k' u n. rewrite Hget1. destruct (decide (k = k')) as [<-|Hne].
        - destruct (dict_get k count) as [[u0 n0]|] eqn:Hk; intros [= <- <-].
          + destruct (Hinv _ _ _ Hk). split; [done|lia].
          + split; [done|lia].
        - apply Hinv. }
      exists count'. split_and!; try done.
      * cbn [MsgCount.tally]. by rewrite Hstep.
      * intros k'. rewrite Hcnt, Hget1. unfold sent_by. csimpl.
        rewrite filter_cons.
        destruct (decide (k = k')) as [<-|Hne]; case_decide as Hd;
          simpl in Hd; try done;
          destruct (dict_get k count) as [[u n]|]; simpl; lia.
      * rewrite Htot, Htot1. csimpl. lia.
    + destruct (IH count Hnd Hinv) as (count' & Hrun & Hnd' & Hinv' & Hcnt & Htot).
      exists count'. split_and!; try done.
      cbn [MsgCount.tally]. by rewrite Hs.
Qed.

Lemma key_of_format u k : key_of u = Ok k → ∃ s, format u = Ok s.
Proof. destruct u; simpl; try done; eauto. Qed.

Lemma print_items_ok items :
  Forall (λ it, ∃ s, format it.1 = Ok s) items →
  ∃ lines,
    MsgCount.print_items items = (lines, Ok ()) ∧
    Forall2 (λ it line, ∃ s, format it.1 = Ok s ∧ line = count_line s it.2)
      items lines.
Proof.
  induction 1 as [|[u n] items [s Hs] _ (lines & Hrun & Hlines)]; simpl.
  - by exists [].
  - simpl in Hs. rewrite Hs, Hrun.
    exists (count_line s n :: lines). split; [done|].
    constructor; [|done]. by exists s.
Qed.

End tally_lemmas.

(** X13. [msgcount --per-user] on a chat whose messages have a sender that
    can be a key, or no property [from_usr] at all, prints one line per
    sender, [sender: count], the counts never going down; a sender's count
    is the number of messages sent under that key, messages without
    [from_usr] are passed over, and the counts add up to the number of
    messages that have a sender. *)
Theorem msgcount_per_user_counts h chat ms els ss :
  ChatExport.messages h chat = Ok ms →
  iter h ms = Ok els →
  mapM (sender_key h) els = Some ss →
  ∃ items lines,
    MsgCount.run true h chat = (lines, Ok ()) ∧
    Forall2 (λ it line, ∃ s, format it.1 = Ok s ∧ line = count_line s it.2)
      items lines ∧
    ascending (snd <$> items) = true ∧
    sum_list (snd <$> items) = length (omap id ss) ∧
    (∀ k usr, Some (k, usr) ∈ ss →
       ∃ u, key_of u = Ok k ∧ (u, sent_by k ss) ∈ items) ∧
    (∀ u n, (u, n) ∈ items →
       ∃ k, key_of u = Ok k ∧ n = sent_by k ss ∧ 0 < n).
Proof.
  intros Hms Hels Hss.
  destruct (tally_spec h els ss Hss []) as (count & Hrun & Hnd & Hinv & Hcnt & Htot).
  { constructor. }
  { intros k u n. done. }
  set (items := sorted_by snd (snd <$> count)).
  assert (Hperm : items ≡ₚ snd <$> count) by apply sorted_by_Permutation.
  assert (Hmem : ∀ u n, (u, n) ∈ items ↔ ∃ k, dict_get k count = Some (u, n)).
  { intros u n. rewrite Hperm, list_elem_of_fmap. split.
    - intros ([k [u' n']] & [= <- <-] & Hin). exists k.
      by apply elem_of_dict_get.
    - intros [k Hk]. exists (k, (u, n)). split; [done|].
      by apply dict_get_elem_of. }
  destruct (print_items_ok items) as (lines & Hprint & Hlines).
  { apply Forall_forall. intros [u n] [k Hk]%Hmem.
    destruct (Hinv _ _ _ Hk) as [Hkey _]. by eapply key_of_format. }
  exists items, lines. split_and!.
  - unfold MsgCount.run. simpl negb. cbv iota.
    rewrite Hms. csimpl. rewrite Hels. csimpl. by rewrite Hrun.
  - done.
  - apply sorted_by_ascending.
  - rewrite Hperm. simpl in Htot. rewrite <- Htot.
    rewrite <- list_fmap_compose. done.
  - intros k usr Hin.
    assert (Hpos : 0 < sent_by k ss).
    { unfold sent_by.
      assert (Hin' : (k, usr) ∈ filter (λ kv : hkey * val, kv.1 = k) (omap id ss)).
      { apply list_elem_of_filter. split; [done|].
        apply list_elem_of_omap. by exists (Some (k, usr)). }
      destruct (filter _ _); [by apply elem_of_nil in Hin'|simpl; lia]. }
    specialize (Hcnt k). simpl in Hcnt.
    destruct (dict_get k count) as [[u n]|] eqn:Hk; simpl in Hcnt; [|lia].
    exists u. split; [by destruct (Hinv _ _ _ Hk)|].
    apply Hmem. exists k. by rewrite Hk, Hcnt.
  - intros u n [k Hk]%Hmem. exists k.
    destruct (Hinv _ _ _ Hk) as [Hkey Hpos].
    specialize (Hcnt k). rewrite Hk in Hcnt. simpl in Hcnt.
    split_and!; done.
Qed.

Lemma msgcount_per_user_counts_witness :
  ∃ items lines,
    MsgCount.run true busy_chat_store (VRef 10%positive) = (lines, Ok ()) ∧
    Forall2 (λ it line, ∃ s, format it.1 = Ok s ∧ line = count_line s it.2)
      items lines ∧
    ascending (snd <$> items) = true ∧
    sum_list (snd <$> items) = length (omap id busy_senders) ∧
    (∀ k usr, Some (k, usr) ∈ busy_senders →
       ∃ u, key_of u = Ok k ∧ (u, sent_by k busy_senders) ∈ items) ∧
    (∀ u n, (u, n) ∈ items →
       ∃ k, key_of u = Ok k ∧ n = sent_by k busy_senders ∧ 0 < n).
Proof.
  apply (msgcount_per_user_counts busy_chat_store (VRef 10%positive)
           (VRef 2%positive)
           [VRef 11%positive; VRef 14%positive; VRef 17%positive;
            VRef 20%positive; VRef 23%positive; VRef 26%positive;
            VRef 29%positive] busy_senders).
  - vm_compute. reflexivity.
  - vm_compute. reflexivity.
  - vm_compute. reflexivity.
Defined.

Lemma tally_app h pre rest ss :
  mapM (sender_key h) pre = Some ss →
  ∀ count, ∃ count', MsgCount.tally h (pre ++ rest) count = MsgCount.tally h rest count'.
Proof.
  intros H%mapM_Some_1.
  induction H as [|msg s pre ss Hs _ IH]; intros count; [by exists count|].
  apply sender_key_inv in Hs. cbn [app MsgCount.tally].
  destruct s as [[k usr]|].
  - destruct Hs as [-> Hkey]. csimpl. unfold MsgCount.incr. rewrite Hkey. csimpl.
    apply IH.
  - rewrite Hs. csimpl. apply IH.
Qed.

(** X14. [msgcount --per-user] suppresses [AttributeError] only: when
    [from_usr] of a message raises another error, as [KeyError] for a
    regular message whose record has no [from], the command raises that
    error and prints nothing, whatever was counted before. *)
Theorem msgcount_per_user_raises_other_errors h chat ms pre bad rest ss e :
  ChatExport.messages h chat = Ok ms →
  iter h ms = Ok (pre ++ bad :: rest) →
  mapM (sender_key h) pre = Some ss →
  from_usr h bad = Raise e →
  e ≠ AttributeError →
  MsgCount.run true h chat = ([], Raise e).
Proof.
  intros Hms Hels Hpre Hbad He.
  unfold MsgCount.run. simpl negb. cbv iota.
  rewrite Hms. csimpl. rewrite Hels. csimpl.
  destruct (tally_app h pre (bad :: rest) ss Hpre []) as (count & ->).
  cbn [MsgCount.tally]. rewrite Hbad. csimpl. by destruct e.
Qed.

Lemma msgcount_per_user_raises_other_errors_witness :
  MsgCount.run true nameless_chat_store (VRef 5%positive) =
    ([], Raise (KeyError (str "from"))).
Proof.
  apply (msgcount_per_user_raises_other_errors nameless_chat_store
           (VRef 5%positive) (VRef 2%positive) [VRef 6%positive]
           (VRef 9%positive) [] [Some (KStr (str "A"), VStr (str "A"))]).
  - vm_compute. reflexivity.
  - vm_compute. reflexivity.
  - vm_compute. reflexivity.
  - vm_compute. reflexivity.
  - discriminate.
Defined.

(** ** [wgrep] *)

Lemma sender_shown_inv h msg s :
  sender_shown h msg = Some s →
  match s with
  | Some u => ∃ usr, from_usr h msg = Ok usr ∧ format_in h usr = Ok u
  | None => from_usr h msg = Raise AttributeError
  end.
Proof.
  unfold sender_shown. intros H.
  destruct (from_usr h msg) as [usr|[]|]; try done.
  - destruct (format_in h usr) as [u| |] eqn:Hu; try done.
    injection H as <-. by exists usr.
  - by injection H as <-.
Qed.

Lemma text_shown_inv h msg t :
  text_shown h msg = Some t →
  ∃ text, getattr h msg p_text = Ok text ∧ format_in h text = Ok t.
Proof.
  unfold text_shown. intros H.
  destruct (getattr h msg p_text) as [text| |] eqn:Htext; try done.
  csimpl in H. destruct (format_in h text) as [t'| |] eqn:Ht; try done.
  injection H as <-. by exists text.
Qed.

Lemma found_inv lower h cs words msg ns :
  found lower h cs words msg = Some ns →
  Forall2 (λ word n, text_count lower h msg word cs = Ok n) words ns.
Proof.
  unfold found. intros H%mapM_Some_1.
  eapply Forall2_impl; [exact H|]. simpl. intros word n Hn.
  by destruct (text_count lower h msg word cs) as [n'| |]; simplify_eq.
Qed.

Lemma match_line_ok h msg word u t :
  sender_shown h msg = Some (Some u) →
  text_shown h msg = Some t →
  WordGrep.match_line h msg word = Ok (word ++ str ": [" ++ u ++ str "] " ++ t).
Proof.
  intros (usr & Husr & Hu)%sender_shown_inv (text & Htext & Ht)%text_shown_inv.
  unfold WordGrep.match_line. rewrite Husr. csimpl. rewrite Hu. csimpl.
  rewrite Htext. csimpl. by rewrite Ht.
Qed.

(** The words for a message that has a sender: one line per word found. *)
Lemma grep_words_sender lower h cs msg words u t ns :
  sender_shown h msg = Some (Some u) →
  text_shown h msg = Some t →
  found lower h cs words msg = Some ns →
  WordGrep.grep_words lower h cs msg words = (grep_lines u t words ns, Ok ()).
Proof.
  intros Hu Ht Hns%found_inv. unfold grep_lines.
  induction Hns as [|word n words ns Hn _ IH]; [done|].
  cbn [WordGrep.grep_words]. rewrite Hn. csimpl. destruct n as [|n].
  - exact IH.
  - rewrite (match_line_ok h msg word u t Hu Ht), IH. done.
Qed.

(** The words for a message that has no sender: nothing while no word is
    found, [AttributeError] at the first word that is. *)
Lemma grep_words_no_sender lower h cs msg words ns :
  sender_shown h msg = Some None →
  found lower h cs words msg = Some ns →
  WordGrep.grep_words lower h cs msg words =
    ([], if none_found ns then Ok () else Raise AttributeError).
Proof.
  intros Hs%sender_shown_inv Hns%found_inv. unfold none_found.
  induction Hns as [|word n words ns Hn _ IH]; [done|].
  cbn [WordGrep.grep_words]. rewrite Hn. destruct n as [|n]; simpl.
  - exact IH.
  - unfold WordGrep.match_line. by rewrite Hs.
Qed.

Lemma grep_view_inv lower h cs words msg v :
  grep_view lower h cs words msg = Some v →
  sender_shown h msg = Some v.1.1 ∧ text_shown h msg = Some v.1.2 ∧
  found lower h cs words msg = Some v.2.
Proof.
  unfold grep_view. intros H.
  destruct (sender_shown h msg) as [s|]; [|done]. csimpl in H.
  destruct (text_shown h msg) as [t|]; [|done]. csimpl in H.
  destruct (found lower h cs words msg) as [ns|]; [|done]. csimpl in H.
  by injection H as <-.
Qed.

Lemma grep_words_safe lower h cs words msg v :
  grep_view lower h cs words msg = Some v →
  grep_safe v = true →
  WordGrep.grep_words lower h cs msg words = (view_lines words v, Ok ()).
Proof.
  intros (Hs & Ht & Hns)%grep_view_inv Hsafe.
  unfold grep_safe, view_lines in *. destruct v as [[[u|] t] ns]; simpl in *.
  - by apply grep_words_sender.
  - rewrite (grep_words_no_sender lower h cs msg words ns Hs Hns). by rewrite Hsafe.
Qed.

Lemma grep_messages_safe lower h cs words pre rest views :
  mapM (grep_view lower h cs words) pre = Some views →
  forallb grep_safe views = true →
  WordGrep.grep_messages lower h cs (pre ++ rest) words =
    (let out := WordGrep.grep_messages lower h cs rest words in
     (flat_map (view_lines words) views ++ out.1, out.2)).
Proof.
  intros H%mapM_Some_1.
  induction H as [|msg v pre views Hv _ IH]; intros Hsafe.
  - simpl. by destruct (WordGrep.grep_messages lower h cs rest words).
  - simpl in Hsafe. apply andb_prop in Hsafe as [Hv' Hsafe].
    cbn [app WordGrep.grep_messages].
    rewrite (grep_words_safe lower h cs words msg v Hv Hv').
    rewrite (IH Hsafe). simpl. by rewrite app_assoc.
Qed.

(** X15. On a chat in which every message has a sender, or no word in it,
    [wgrep] prints, message by message and for each word in the order
    given, the line [word: [sender] text] when the word is found in the
    message and nothing when it is not, and ends normally. *)
Theorem wgrep_prints_matches (lower : list N → list N) h chat ms els views
    words (case_sensitive : bool) :
  ChatExport.messages h chat = Ok ms →
  iter h ms = Ok els →
  mapM (grep_view lower h case_sensitive words) els = Some views →
  forallb grep_safe views = true →
  WordGrep.run lower words case_sensitive h chat =
    (flat_map (view_lines words) views, Ok ()).
Proof.
  intros Hms Hels Hviews Hsafe.
  unfold WordGrep.run. rewrite Hms. csimpl. rewrite Hels.
  pose proof (grep_messages_safe lower h case_sensitive words els [] views
                Hviews Hsafe) as H.
  rewrite app_nil_r in H. rewrite H. simpl. by rewrite app_nil_r.
Qed.

Lemma wgrep_prints_matches_witness :
  WordGrep.run lower_latin [str "T"; str "five"] false busy_chat_store
    (VRef 10%positive) =
    ([str "T: [B] two"; str "T: [A] three"; str "five: [A] five"], Ok ()).
Proof.
  apply (wgrep_prints_matches lower_latin busy_chat_store (VRef 10%positive)
           (VRef 2%positive)
           [VRef 11%positive; VRef 14%positive; VRef 17%positive;
            VRef 20%positive; VRef 23%positive; VRef 26%positive;
            VRef 29%positive]
           [(Some (str "A"), str "one", [0; 0]); (None, str "", [0; 0]);
            (Some (str "B"), str "two", [1; 0]);
            (Some (str "A"), str "three", [1; 0]);
            (None, str "Someone joined", [0; 0]);
            (Some (str "B"), str "four one", [0; 0]);
            (Some (str "A"), str "five", [0; 1])]
           [str "T"; str "five"] false).
  - vm_compute. reflexivity.
  - vm_compute. reflexivity.
  - vm_compute. reflexivity.
  - vm_compute. reflexivity.
Defined.

(** X16. [wgrep] reads the sender only to print a match, and does not
    guard it: at the first message without [from_usr] (a service message)
    in which a word is found it raises [AttributeError]; the lines of the
    messages before it are printed, nothing of that message or the ones
    after it. *)
Theorem wgrep_raises_on_senderless_match (lower : list N → list N) h chat ms
    pre bad rest views words (case_sensitive : bool) ns :
  ChatExport.messages h chat = Ok ms →
  iter h ms = Ok (pre ++ bad :: rest) →
  mapM (grep_view lower h case_sensitive words) pre = Some views →
  forallb grep_safe views = true →
  sender_shown h bad = Some None →
  found lower h case_sensitive words bad = Some ns →
  none_found ns = false →
  WordGrep.run lower words case_sensitive h chat =
    (flat_map (view_lines words) views, Raise AttributeError).
Proof.
  intros Hms Hels Hviews Hsafe Hbad Hns Hfound.
  unfold WordGrep.run. rewrite Hms. csimpl. rewrite Hels.
  rewrite (grep_messages_safe lower h case_sensitive words pre (bad :: rest)
             views Hviews Hsafe).
  cbn [WordGrep.grep_messages].
  rewrite (grep_words_no_sender lower h case_sensitive bad words ns Hbad Hns).
  rewrite Hfound. simpl. by rewrite app_nil_r.
Qed.

Lemma wgrep_raises_on_senderless_match_witness :
  WordGrep.run lower_latin [str "one"; str "o"] false busy_chat_store
    (VRef 10%positive) =
    ([str "one: [A] one"; str "o: [A] one"; str "o: [B] two"],
     Raise AttributeError).
Proof.
  apply (wgrep_raises_on_senderless_match lower_latin busy_chat_store
           (VRef 10%positive) (VRef 2%positive)
           [VRef 11%positive; VRef 14%positive; VRef 17%positive;
            VRef 20%positive]
           (VRef 23%positive) [VRef 26%positive; VRef 29%positive]
           [(Some (str "A"), str "one", [1; 1]); (None, str "", [0; 0]);
            (Some (str "B"), str "two", [0; 1]);
            (Some (str "A"), str "three", [0; 0])]
           [str "one"; str "o"] false [1; 3]).
  - vm_compute. reflexivity.
  - vm_compute. reflexivity.
  - vm_compute. reflexivity.
  - vm_compute. reflexivity.
  - vm_compute. reflexivity.
  - vm_compute. reflexivity.
  - vm_compute. reflexivity.
Defined.

(** ** [wcount] *)

Section wcount_lemmas.

Variable lower : list N → list N.

(** The words for the first message: each word enters the counter with
    its count, in the order of the words. *)
Lemma count_words_new h cs msg words ns :
  Forall2 (λ word n, text_count lower h msg word cs = Ok n) words ns →
  ∀ done : list (list N * nat),
    NoDup words →
    (∀ w, w ∈ words → w ∉ done.*1) →
    WordCount.count_words lower h cs msg words done = Ok (done ++ zip words ns).
Proof.
  induction 1 as [|word n words ns Hn _ IH]; intros done Hnd Hfresh.
  - simpl. by rewrite app_nil_r.
  - apply NoDup_cons in Hnd as [Hword Hnd].
    cbn [WordCount.count_words]. rewrite Hn. csimpl.
    assert (Hget : dict_get word done = None).
    { apply dict_get_None, Hfresh, list_elem_of_here. }
    unfold WordCount.add. rewrite Hget. simpl.
    rewrite dict_set_new by done.
    rewrite IH; [by rewrite <- app_assoc|done|].
    intros w Hw. rewrite fmap_app, not_elem_of_app. split.
    + apply Hfresh. by apply list_elem_of_further.
    + simpl. intros [->|H]%elem_of_cons; [done|by apply elem_of_nil in H].
Qed.

(** The words for a later message: each count grows by what is found. *)
Lemma count_words_next h cs msg words ns :
  Forall2 (λ word n, text_count lower h msg word cs = Ok n) words ns →
  ∀ (done : list (list N * nat)) tot,
    NoDup words →
    (∀ w, w ∈ words → w ∉ done.*1) →
    length tot = length words →
    WordCount.count_words lower h cs msg words (done ++ zip words tot) =
      Ok (done ++ zip words (zip_with Nat.add tot ns)).
Proof.
  induction 1 as [|word n words ns Hn _ IH]; intros done tot Hnd Hfresh Hlen.
  - done.
  - destruct tot as [|t tot]; [done|]. injection Hlen as Hlen.
    apply NoDup_cons in Hnd as [Hword Hnd].
    cbn [WordCount.count_words]. rewrite Hn. csimpl.
    assert (Hdone : word ∉ done.*1) by apply Hfresh, list_elem_of_here.
    unfold WordCount.add.
    rewrite dict_get_app_r by done. simpl. rewrite decide_True by done. simpl.
    rewrite dict_set_app_r by done. simpl. rewrite decide_True by done.
    specialize (IH (done ++ [(word, t + n)]) tot Hnd).
    rewrite <- !app_assoc in IH. simpl in IH. apply IH; [|done].
    intros w Hw. rewrite fmap_app, not_elem_of_app. split.
    + apply Hfresh. by apply list_elem_of_further.
    + simpl. intros [->|H]%elem_of_cons; [done|by apply elem_of_nil in H].
Qed.

(** The messages after the first. *)
Lemma count_messages_next h cs words msgs nss :
  Forall2 (λ msg ns, found lower h cs words msg = Some ns) msgs nss →
  ∀ tot,
    NoDup words →
    length tot = length words →
    WordCount.count_messages lower h cs msgs words (zip words tot) =
      Ok (zip words (foldl (zip_with Nat.add) tot nss)).
Proof.
  induction 1 as [|msg ns msgs nss Hns _ IH]; intros tot Hnd Hlen; [done|].
  cbn [WordCount.count_messages].
  pose proof (found_inv _ _ _ _ _ _ Hns) as Hns'.
  pose proof (count_words_next h cs msg words ns Hns' [] tot Hnd) as Hstep.
  simpl in Hstep. rewrite Hstep; [|intros; apply not_elem_of_nil|done].
  csimpl. apply IH; [done|].
  rewrite length_zip_with, Hlen. apply Forall2_length in Hns'. lia.
Qed.

Lemma foldl_zip_with_lookup (nss : list (list nat)) :
  ∀ tot j,
    Forall (λ ns, length ns = length tot) nss →
    j < length tot →
    foldl (zip_with Nat.add) tot nss !! j =
      Some (default 0 (tot !! j) + total_at j nss).
Proof.
  unfold total_at. induction nss as [|ns nss IH]; intros tot j Hall Hj.
  - simpl. destruct (lookup_lt_is_Some_2 tot j Hj) as [x ->]. simpl.
    by rewrite Nat.add_0_r.
  - apply Forall_cons in Hall as [Hns Hall]. csimpl.
    rewrite IH.
    + rewrite lookup_zip_with.
      destruct (lookup_lt_is_Some_2 tot j Hj) as [x ->].
      destruct (lookup_lt_is_Some_2 ns j) as [y ->]; [lia|].
      simpl. f_equal. lia.
    + eapply Forall_impl; [exact Hall|]. simpl. intros ns' Hns'.
      rewrite length_zip_with. lia.
    + rewrite length_zip_with. lia.
Qed.

End wcount_lemmas.

(** X17. [wcount] without [--per-user], for words that are all different,
    prints one line per word in the order given, [word: total], the total
    being the sum over the messages of what the word's count in the
    message's text is; on a chat without messages it prints nothing. *)
Theorem wcount_prints_totals (lower : list N → list N) h chat ms els nss words
    (case_sensitive : bool) :
  ChatExport.messages h chat = Ok ms →
  iter h ms = Ok els →
  mapM (found lower h case_sensitive words) els = Some nss →
  NoDup words →
  ∃ lines,
    WordCount.run lower words case_sensitive false h chat = (lines, Ok ()) ∧
    (els = [] → lines = []) ∧
    (els ≠ [] →
       length lines = length words ∧
       ∀ j word, words !! j = Some word →
         lines !! j = Some (count_line word (total_at j nss))).
Proof.
  intros Hms Hels Hnss%mapM_Some_1 Hnd.
  unfold WordCount.run. rewrite Hms. csimpl. rewrite Hels. simpl negb. cbv iota.
  destruct Hnss as [|msg ns els nss Hns Hnss].
  - exists []. by split_and!.
  - pose proof (found_inv _ _ _ _ _ _ Hns) as Hns'.
    assert (Hlen : length ns = length words)
      by (symmetry; by eapply Forall2_length).
    cbn [WordCount.count_messages].
    pose proof (count_words_new lower h case_sensitive msg words ns Hns' [] Hnd)
      as Hfirst.
    simpl in Hfirst. rewrite Hfirst by (intros; apply not_elem_of_nil).
    csimpl.
    rewrite (count_messages_next lower h case_sensitive words els nss Hnss ns Hnd Hlen).
    eexists. split_and!; [done|done|]. intros _.
    assert (Hall : Forall (λ ns', length ns' = length ns) nss).
    { apply Forall_forall. intros ns' Hin.
      apply list_elem_of_lookup in Hin as [i Hi].
      destruct (Forall2_lookup_r _ _ _ _ _ Hnss Hi) as (msg' & _ & Hf).
      apply found_inv, Forall2_length in Hf. lia. }
    assert (Hlen' : length (foldl (zip_with Nat.add) ns nss) = length words).
    { clear -Hall Hlen. revert ns Hall Hlen.
      induction nss as [|ns' nss IH]; intros ns Hall Hlen; [done|].
      apply Forall_cons in Hall as [Hns' Hall]. simpl. apply IH.
      - eapply Forall_impl; [exact Hall|]. simpl. intros x Hx.
        rewrite length_zip_with. lia.
      - rewrite length_zip_with. lia. }
    split.
    + unfold WordCount.count_lines. rewrite length_fmap, length_zip_with. lia.
    + intros j word Hj.
      unfold WordCount.count_lines. rewrite list_lookup_fmap, lookup_zip_with, Hj.
      simpl. rewrite foldl_zip_with_lookup; [|done|].
      * simpl. unfold total_at. csimpl. done.
      * rewrite Hlen. eauto using lookup_lt_Some.
Qed.

Lemma wcount_prints_totals_witness :
  ∃ lines,
    WordCount.run lower_latin [str "one"; str "O"] false false busy_chat_store
      (VRef 10%positive) = (lines, Ok ()) ∧
    (([VRef 11%positive; VRef 14%positive; VRef 17%positive; VRef 20%positive;
       VRef 23%positive; VRef 26%positive; VRef 29%positive] : list val) = [] →
     lines = []) ∧
    (([VRef 11%positive; VRef 14%positive; VRef 17%positive; VRef 20%positive;
       VRef 23%positive; VRef 26%positive; VRef 29%positive] : list val) ≠ [] →
     length lines = 2 ∧
     ∀ j word, [str "one"; str "O"] !! j = Some word →
       lines !! j =
         Some (count_line word
                 (total_at j [[1; 1]; [0; 0]; [0; 1]; [0; 0]; [1; 3]; [1; 2]; [0; 0]]))).
Proof.
  apply (wcount_prints_totals lower_latin busy_chat_store (VRef 10%positive)
           (VRef 2%positive)
           [VRef 11%positive; VRef 14%positive; VRef 17%positive;
            VRef 20%positive; VRef 23%positive; VRef 26%positive;
            VRef 29%positive]
           [[1; 1]; [0; 0]; [0; 1]; [0; 0]; [1; 3]; [1; 2]; [0; 0]]
           [str "one"; str "O"] false).
  - vm_compute. reflexivity.
  - vm_compute. reflexivity.
  - vm_compute. reflexivity.
  - apply NoDup_cons. split; [|apply NoDup_singleton].
    intros [H|H]%elem_of_cons; [by vm_compute in H|by apply elem_of_nil in H].
Defined.

Section wcount_user_lemmas.

Variable lower : list N → list N.

Lemma count_view_inv h cs words msg v :
  count_view lower h cs words msg = Some v →
  sender_key h msg = Some v.1 ∧ found lower h cs words msg = Some v.2.
Proof.
  unfold count_view. intros H.
  destruct (sender_key h msg) as [s|]; [|done]. csimpl in H.
  destruct (found lower h cs words msg) as [ns|]; [|done]. csimpl in H.
  by injection H as <-.
Qed.

(** A message that has a sender, or no word in it, is worked off. *)
Lemma user_words_safe h cs words msg v :
  count_view lower h cs words msg = Some v →
  count_safe v = true →
  ∀ user_count, ∃ user_count',
    WordCount.user_words lower h cs msg words user_count = Ok user_count'.
Proof.
  intros [Hs Hns]%count_view_inv Hsafe.
  apply sender_key_inv in Hs. apply found_inv in Hns.
  destruct v as [s ns]. unfold count_safe, none_found in Hsafe. simpl in *.
  induction Hns as [|word n words ns Hn _ IH]; intros user_count; [by eexists|].
  cbn [WordCount.user_words]. rewrite Hn. csimpl.
  destruct s as [[k usr]|].
  - destruct Hs as [Husr Hk]. destruct n as [|n]; [by apply IH|].
    rewrite Husr. csimpl. unfold WordCount.add_user. rewrite Hk. csimpl.
    by apply IH.
  - simpl in Hsafe. apply andb_prop in Hsafe as [Hn0 Hsafe].
    destruct n as [|n]; [by apply IH|done].
Qed.

(** A message without sender raises at the first word found in it. *)
Lemma user_words_no_sender h cs words msg ns :
  sender_key h msg = Some None →
  found lower h cs words msg = Some ns →
  none_found ns = false →
  ∀ user_count,
    WordCount.user_words lower h cs msg words user_count = Raise AttributeError.
Proof.
  intros Hs%sender_key_inv Hns%found_inv. unfold none_found.
  induction Hns as [|word n words ns Hn _ IH]; intros Hfound user_count; [done|].
  cbn [WordCount.user_words]. rewrite Hn. csimpl. destruct n as [|n].
  - by apply IH.
  - by rewrite Hs.
Qed.

Lemma user_messages_safe h cs words pre rest views :
  mapM (count_view lower h cs words) pre = Some views →
  forallb count_safe views = true →
  ∀ user_count, ∃ user_count',
    WordCount.user_messages lower h cs (pre ++ rest) words user_count =
      WordCount.user_messages lower h cs rest words user_count'.
Proof.
  intros H%mapM_Some_1.
  induction H as [|msg v pre views Hv _ IH]; intros Hsafe user_count.
  - by exists user_count.
  - simpl in Hsafe. apply andb_prop in Hsafe as [Hv' Hsafe].
    cbn [app WordCount.user_messages].
    destruct (user_words_safe h cs words msg v Hv Hv' user_count) as [uc ->].
    csimpl. by apply IH.
Qed.

End wcount_user_lemmas.

(** X18. [wcount --per-user] reads the sender of a message when a word is
    found in it, and does not guard it: when a word is found in a message
    without [from_usr] (a service message), the command raises
    [AttributeError], and since it prints only after the loops, nothing is
    printed, whatever was counted before. *)
Theorem wcount_per_user_raises_on_senderless_match (lower : list N → list N)
    h chat ms pre bad rest views words (case_sensitive : bool) ns :
  ChatExport.messages h chat = Ok ms →
  iter h ms = Ok (pre ++ bad :: rest) →
  mapM (count_view lower h case_sensitive words) pre = Some views →
  forallb count_safe views = true →
  sender_key h bad = Some None →
  found lower h case_sensitive words bad = Some ns →
  none_found ns = false →
  WordCount.run lower words case_sensitive true h chat =
    ([], Raise AttributeError).
Proof.
  intros Hms Hels Hviews Hsafe Hbad Hns Hfound.
  unfold WordCount.run. rewrite Hms. csimpl. rewrite Hels. simpl negb. cbv iota.
  destruct (user_messages_safe lower h case_sensitive words pre (bad :: rest)
              views Hviews Hsafe []) as [uc ->].
  cbn [WordCount.user_messages].
  by rewrite (user_words_no_sender lower h case_sensitive words bad ns Hbad Hns Hfound).
Qed.

Lemma wcount_per_user_raises_on_senderless_match_witness :
  WordCount.run lower_latin [str "one"; str "o"] false true busy_chat_store
    (VRef 10%positive) = ([], Raise AttributeError).
Proof.
  apply (wcount_per_user_raises_on_senderless_match lower_latin busy_chat_store
           (VRef 10%positive) (VRef 2%positive)
           [VRef 11%positive; VRef 14%positive; VRef 17%positive;
            VRef 20%positive]
           (VRef 23%positive) [VRef 26%positive; VRef 29%positive]
           [(Some (KStr (str "A"), VStr (str "A")), [1; 1]); (None, [0; 0]);
            (Some (KStr (str "B"), VStr (str "B")), [0; 1]);
            (Some (KStr (str "A"), VStr (str "A")), [0; 0])]
           [str "one"; str "o"] false [1; 3]).
  - vm_compute. reflexivity.
  - vm_compute. reflexivity.
  - vm_compute. reflexivity.
  - vm_compute. reflexivity.
  - vm_compute. reflexivity.
  - vm_compute. reflexivity.
  - vm_compute. reflexivity.
Defined.

(** ** The block [wcount --per-user] prints for a user *)

Lemma str_le_total a b : str_le a b = false → str_le b a = true.
Proof.
  revert b. induction a as [|x a IH]; intros [|y b]; simpl; try done.
  destruct (decide (x = y)) as [->|Hne].
  - rewrite !bool_decide_eq_true_2 by done. apply IH.
  - rewrite (bool_decide_eq_false_2 (x = y)) by done.
    rewrite (bool_decide_eq_false_2 (y = x)) by done.
    intros H%bool_decide_eq_false. apply bool_decide_eq_true. lia.
Qed.

Lemma str_le_trans a b c : str_le a b = true → str_le b c = true → str_le a c = true.
Proof.
  revert b c. induction a as [|x a IH]; intros [|y b] [|z c]; simpl; try done.
  destruct (decide (x = y)) as [->|Hxy], (decide (y = z)) as [->|Hyz].
  - rewrite !bool_decide_eq_true_2 by done. apply IH.
  - rewrite (bool_decide_eq_true_2 (y = y)) by done.
    by rewrite (bool_decide_eq_false_2 (y = z)) by done.
  - rewrite (bool_decide_eq_true_2 (z = z)) by done.
    by rewrite (bool_decide_eq_false_2 (x = z)) by done.
  - rewrite (bool_decide_eq_false_2 (x = y)), (bool_decide_eq_false_2 (y = z)) by done.
    intros H1%bool_decide_eq_true H2%bool_decide_eq_true.
    rewrite (bool_decide_eq_false_2 (x = z)) by lia.
    apply bool_decide_eq_true. lia.
Qed.

Lemma insert_word_Permutation x l : insert_word x l ≡ₚ x :: l.
Proof.
  induction l as [|y l IH]; simpl; [done|].
  destruct (str_le x.1 y.1); [done|].
  rewrite IH. apply Permutation_swap.
Qed.

Lemma sorted_words_Permutation l : sorted_words l ≡ₚ l.
Proof.
  induction l as [|x l IH]; simpl; [done|].
  by rewrite insert_word_Permutation, IH.
Qed.

Lemma insert_word_ascending x l :
  ascending_words (fst <$> l) = true →
  ascending_words (fst <$> insert_word x l) = true.
Proof.
  induction l as [|y l IH]; [done|].
  cbn [insert_word]. csimpl.
  intros [Hall Hasc]%andb_prop.
  destruct (str_le x.1 y.1) eqn:Hle; csimpl.
  - rewrite Hle, Hall, Hasc. rewrite !andb_true_r. simpl.
    rewrite forallb_forall in *. intros z Hz.
    eapply str_le_trans; [exact Hle|]. by apply Hall.
  - rewrite IH by done. rewrite andb_true_r.
    rewrite forallb_forall. intros z Hz.
    apply list_elem_of_In, list_elem_of_fmap in Hz as (a & -> & Ha).
    rewrite insert_word_Permutation in Ha.
    apply elem_of_cons in Ha as [->|Ha]; [by apply str_le_total|].
    rewrite forallb_forall in Hall. apply Hall.
    apply list_elem_of_In, list_elem_of_fmap. by exists a.
Qed.

Lemma sorted_words_ascending l : ascending_words (fst <$> sorted_words l) = true.
Proof.
  induction l as [|x l IH]; simpl; [done|by apply insert_word_ascending].
Qed.

(** The numeral of a count is made of digits. *)
Lemma pretty_N_char_digit x :
  (48 ≤ N_of_ascii (pretty_N_char x) ≤ 57)%N.
Proof. unfold pretty_N_char. repeat case_match; vm_compute; split; discriminate. Qed.

Lemma pretty_N_go_digits x s :
  Forall (λ a, (48 ≤ N_of_ascii a ≤ 57)%N) (list_ascii_of_string s) →
  Forall (λ a, (48 ≤ N_of_ascii a ≤ 57)%N) (list_ascii_of_string (pretty_N_go x s)).
Proof.
  revert s. induction (N.lt_wf_0 x) as [x _ IH]; intros s Hs.
  destruct (decide (x = 0)%N) as [->|Hx]; [by rewrite pretty_N_go_0|].
  rewrite pretty_N_go_step by lia. apply IH.
  - apply N.div_lt; lia.
  - simpl. constructor; [apply pretty_N_char_digit|done].
Qed.

Lemma decimal_digits n : Forall (λ c, (48 ≤ c ≤ 57)%N) (decimal n).
Proof.
  unfold decimal, str, pretty, pretty_nat, pretty, pretty_N.
  apply Forall_fmap.
  destruct (decide (N.of_nat n = 0)%N).
  - repeat constructor; vm_compute; discriminate.
  - apply pretty_N_go_digits. constructor.
Qed.

Lemma one_line_app a b : one_line (a ++ b) = one_line a && one_line b.
Proof. unfold one_line. apply forallb_app. Qed.

Lemma count_line_one_line word n :
  one_line word = true → one_line (count_line word n) = true.
Proof.
  intros Hw. unfold count_line. rewrite !one_line_app, Hw. simpl.
  unfold one_line. apply forallb_forall. intros c Hc%list_elem_of_In.
  pose proof (decimal_digits n) as Hd. rewrite Forall_forall in Hd.
  specialize (Hd c Hc). unfold is_linebreak.
  apply negb_true_iff, bool_decide_eq_false.
  rewrite !elem_of_cons, elem_of_nil. lia.
Qed.

Lemma count_line_not_blank word n : forallb is_space (count_line word n) = false.
Proof.
  unfold count_line. rewrite !forallb_app.
  apply andb_false_iff. right. apply andb_false_iff. left. by vm_compute.
Qed.

Lemma splitlines_one_line cur line :
  one_line line = true →
  splitlines_keep cur line =
    match cur ++ line with [] => [] | _ :: _ => [cur ++ line] end.
Proof.
  revert cur. induction line as [|c line IH]; intros cur; simpl.
  - intros _. rewrite app_nil_r. by destruct cur.
  - intros [Hc Hline]%andb_prop. apply negb_true_iff in Hc. rewrite Hc.
    rewrite IH by done. rewrite <- app_assoc. simpl.
    by destruct cur.
Qed.

Lemma splitlines_line_break cur line rest :
  one_line line = true →
  splitlines_keep cur (line ++ 10%N :: rest) =
    (cur ++ line ++ [10%N]) :: splitlines_keep [] rest.
Proof.
  revert cur. induction line as [|c line IH]; intros cur; simpl.
  - done.
  - intros [Hc Hline]%andb_prop. apply negb_true_iff in Hc. rewrite Hc.
    rewrite IH by done. by rewrite <- app_assoc.
Qed.

(** Indenting lines that are joined by line feeds indents each of them. *)
Lemma indent_join lines prefix :
  Forall (λ line, one_line line = true ∧ forallb is_space line = false) lines →
  indent (join_with [10%N] lines) prefix =
    join_with [10%N] ((prefix ++.) <$> lines).
Proof.
  unfold indent. induction 1 as [|line lines [Hone Hblank] Hall IH]; [done|].
  destruct lines as [|line' lines].
  - simpl. rewrite splitlines_one_line by done. simpl.
    destruct line as [|c line]; [done|]. simpl in *.
    rewrite Hblank. by rewrite app_nil_r.
  - change (join_with [10%N] (line :: line' :: lines))
      with (line ++ 10%N :: join_with [10%N] (line' :: lines)).
    rewrite splitlines_line_break by done.
    rewrite fmap_cons. cbn [concat]. rewrite IH.
    cbn [app]. rewrite forallb_app, Hblank. cbn [andb].
    rewrite !fmap_cons.
    change (join_with [10%N] ((prefix ++ line) :: (prefix ++ line') :: (app prefix <$> lines)))
      with ((prefix ++ line) ++ [10%N] ++
            join_with [10%N] ((prefix ++ line') :: (app prefix <$> lines))).
    by rewrite <- !app_assoc.
Qed.

(** X19. For a user, [wcount --per-user] prints the user and then one
    text: for words without line breaks, the lines [- word: count] joined
    by line feeds, one per word counted for the user, the words in
    ascending order. *)
Theorem user_block_lines usr u word_counts :
  format usr = Ok u →
  forallb (λ wn, one_line wn.1) word_counts = true →
  WordCount.user_block usr word_counts =
    Ok [u; join_with [10%N]
             ((λ wn, str "- " ++ count_line wn.1 wn.2) <$> sorted_words word_counts)] ∧
  sorted_words word_counts ≡ₚ word_counts ∧
  ascending_words (fst <$> sorted_words word_counts) = true.
Proof.
  intros Hu Hwords.
  split_and!; [|apply sorted_words_Permutation|apply sorted_words_ascending].
  unfold WordCount.user_block. rewrite Hu. csimpl. do 3 f_equal.
  change (str (String (ascii_of_nat 10) EmptyString)) with [10%N].
  unfold WordCount.count_lines. rewrite indent_join.
  - by rewrite <- list_fmap_compose.
  - apply Forall_fmap, Forall_forall. intros [w n] Hin. simpl.
    split; [|apply count_line_not_blank].
    apply count_line_one_line.
    rewrite forallb_forall in Hwords.
    apply (Hwords (w, n)), list_elem_of_In.
    by rewrite <- sorted_words_Permutation.
Qed.

Lemma user_block_lines_witness :
  WordCount.user_block (VStr (str "A")) [(str "one", 2); (str "Two", 1); (str "o", 4)] =
    Ok [str "A";
        join_with [10%N] [str "- Two: 1"; str "- o: 4"; str "- one: 2"]].
Proof.
  apply (proj1 (user_block_lines (VStr (str "A")) (str "A")
                  [(str "one", 2); (str "Two", 1); (str "o", 4)]
                  eq_refl eq_refl)).
Defined.
